(** * portfolio_tab: allocation constraints, the allocation LP and the pie palette

    A shallow embedding of [portfolio_tab.py].

    Numbers.  The Python code computes on floats.  Rounding is not modelled:
    a finite number is an exact rational ([Q]), compared up to [Qeq] as
    Python compares numbers by value.  The constructor, whose guard compares
    whatever floats it is given, is modelled on floats with their infinities
    and NaN ([pyfloat]); the optimizer is studied on clouds whose attributes
    are finite.

    Exceptions.  A Python call either returns a value or raises; it is
    modelled by the type [outcome]. *)

From Stdlib Require Import List String Ascii Bool ZArith QArith Qabs Qminmax Lia Lqa.
From Stdlib Require Import Sorted Permutation.
Import ListNotations.

Open Scope Q_scope.

(** ** Outcomes of a call *)

(** The two exception classes declared by the module; the built-in
    [IndexError] of list indexing; and what the libraries raise: [TypeError]
    and [PulpSolverError] from the LP library, [ValueError] from the
    plotting library. *)
Inductive exn : Type :=
| NonFeasibleSolutionError
| InvalidInvestmentCloudParameterError
| IndexError
| TypeError
| PulpSolverError
| ValueError.

Inductive outcome (A : Type) : Type :=
| Returned (a : A)
| Raised (e : exn).

Arguments Returned {A} a.
Arguments Raised {A} e.

(** ** Comparisons of numbers, as booleans *)

(** [a < b] *)
Definition Qltb (a b : Q) : bool := negb (Qle_bool b a).
(** [a > b] *)
Definition Qgtb (a b : Q) : bool := Qltb b a.

(** ** Python floats *)

Inductive pyfloat : Type :=
| Finite (q : Q)
| PosInf
| NegInf
| NaN.

(** [a < b]: false as soon as one side is NaN. *)
Definition float_lt (a b : pyfloat) : bool :=
  match a, b with
  | NaN, _ | _, NaN => false
  | Finite x, Finite y => Qltb x y
  | NegInf, NegInf => false
  | NegInf, _ => true
  | _, NegInf => false
  | PosInf, _ => false
  | Finite _, PosInf => true
  end.

(** [a > b] *)
Definition float_gt (a b : pyfloat) : bool := float_lt b a.

(** [a <= b]: false as soon as one side is NaN. *)
Definition float_le (a b : pyfloat) : bool :=
  match a, b with
  | NaN, _ | _, NaN => false
  | Finite x, Finite y => Qle_bool x y
  | NegInf, _ => true
  | _, PosInf => true
  | _, NegInf => false
  | PosInf, _ => false
  end.

(** ** [class InvestmentCloud] *)

(** An instance as [__init__] leaves it: the attributes are the arguments,
    whatever floats they are. *)
Record InvestmentCloudObject : Type := mkInvestmentCloudObject {
  self_asset : string;
  self_expected_return : pyfloat;
  self_minimum : pyfloat;
  self_maximum : pyfloat
}.

(** [InvestmentCloud.__init__]: the guard raises, otherwise the four
    attributes are stored as given. *)
Definition InvestmentCloud_init (asset0 : string) (expected_return0 minimum0 maximum0 : pyfloat)
  : outcome InvestmentCloudObject :=
  if float_lt minimum0 (Finite 0) || float_gt minimum0 maximum0
     || float_gt maximum0 (Finite 1)
  then Raised InvalidInvestmentCloudParameterError
  else Returned {| self_asset := asset0;
                   self_expected_return := expected_return0;
                   self_minimum := minimum0;
                   self_maximum := maximum0 |}.

(** [0 <= minimum <= maximum <= 1], as Python evaluates it on an instance. *)
Definition invariant (o : InvestmentCloudObject) : bool :=
  float_le (Finite 0) (self_minimum o) && float_le (self_minimum o) (self_maximum o)
  && float_le (self_maximum o) (Finite 1).

(** An instance whose three numbers are finite. *)
Record InvestmentCloud : Type := mkInvestmentCloud {
  asset : string;
  expected_return : Q;
  minimum : Q;
  maximum : Q
}.

Definition finite_cloud (o : InvestmentCloudObject) : option InvestmentCloud :=
  match self_expected_return o, self_minimum o, self_maximum o with
  | Finite r, Finite mn, Finite mx =>
      Some {| asset := self_asset o; expected_return := r; minimum := mn; maximum := mx |}
  | _, _, _ => None
  end.

(** The invariant [0 <= minimum <= maximum <= 1]. *)
Definition bounds_ok (c : InvestmentCloud) : Prop :=
  0 <= minimum c /\ minimum c <= maximum c /\ maximum c <= 1.

(** ** [class AssetDist] *)

Record AssetDist : Type := mkAssetDist {
  name : string;
  proportion : Q
}.

(** ** The palette of [display_assets_pie] *)

Module Palette.

(** Python truthiness of an int. *)
Definition truthy (z : Z) : bool := negb (z =? 0)%Z.

Definition rgb_component (status : Z) : string :=
  if truthy status then "CC"%string else "33"%string.

Definition is_white (r g b : Z) : bool :=
  ((r =? 1) && (g =? 1) && (b =? 1))%Z.

Definition is_black (r g b : Z) : bool :=
  ((r =? 0) && (g =? 0) && (b =? 0))%Z.

(** [[(r, g, b) for b in [0, 1] for g in [0, 1] for r in [0, 1]]], before
    the [if] clause: [b] is the outermost loop, [r] the innermost. *)
Definition all_combinations : list (Z * Z * Z) :=
  flat_map (fun b =>
    flat_map (fun g =>
      map (fun r => (r, g, b)) [0; 1]%Z) [0; 1]%Z) [0; 1]%Z.

Definition keep (rgb : Z * Z * Z) : bool :=
  let '(r, g, b) := rgb in negb (is_white r g b) && negb (is_black r g b).

(** The comprehension with its [if] clause. *)
Definition rgb_binary_combinations : list (Z * Z * Z) :=
  filter keep all_combinations.

(** [f"#{rgb_component(rgb[0])}{rgb_component(rgb[1])}{rgb_component(rgb[2])}"] *)
Definition color_of (rgb : Z * Z * Z) : string :=
  let '(r, g, b) := rgb in
  ("#" ++ rgb_component r ++ rgb_component g ++ rgb_component b)%string.

Definition colors : list string := map color_of rgb_binary_combinations.

(** What [display_assets_pie] hands to [ax.pie]. *)
Record PieCall : Type := mkPieCall {
  pie_proportions : list Q;
  pie_labels : list string;
  pie_colors : list string
}.

(** [display_assets_pie], up to the call of the plotting library: no
    statement of it raises, and the colour list does not depend on
    [assets]. *)
Definition display_assets_pie (assets : list AssetDist) : outcome PieCall :=
  let labels := map name assets in
  let proportions := map (fun a => proportion a * 100) assets in
  Returned {| pie_proportions := proportions;
              pie_labels := labels;
              pie_colors := colors |}.

Definition is_hex_digit (c : ascii) : bool :=
  let n := nat_of_ascii c in
  ((48 <=? n) && (n <=? 57) || (65 <=? n) && (n <=? 70) || (97 <=? n) && (n <=? 102))%nat.

(** ['#'] followed by exactly six hexadecimal digits. *)
Definition is_hex_color (s : string) : bool :=
  match s with
  | String "#" rest =>
      (String.length rest =? 6)%nat && forallb is_hex_digit (list_ascii_of_string rest)
  | _ => false
  end.

End Palette.

(** ** The part of the LP library that [calculate_optimal_asset_dist] uses

    The library is not part of the module.  Its objects are modelled as
    plain data: a variable is identified by [var_id], which stands for the
    identity of the Python object (two variables may carry the same name). *)

Module Pulp.

Record LpVariable : Type := mkLpVariable {
  var_id : nat;
  name : string;
  lowBound : option Q;
  upBound : option Q
}.

(** The characters that the library does not keep in a name. *)
Definition illegal_chars : list ascii := list_ascii_of_string "-+[] ->/".

Definition is_illegal (c : ascii) : bool := existsb (Ascii.eqb c) illegal_chars.

(** The name that [LpVariable(label, ...)] keeps: the label with every
    illegal character replaced by ['_'].  (For the empty label the library
    keeps no name at all; labels are taken non-empty where names matter.) *)
Fixpoint kept_name (label : string) : string :=
  match label with
  | EmptyString => EmptyString
  | String c rest => String (if is_illegal c then "_"%char else c) (kept_name rest)
  end.

(** A linear expression: coefficients on variables, plus a constant. *)
Record LpAffineExpression : Type := mkExpr {
  terms : list (LpVariable * Q);
  constant : Q
}.

Inductive LpConstraintSense : Type :=
| LpConstraintLE
| LpConstraintEQ
| LpConstraintGE.

Record LpConstraint : Type := mkLpConstraint {
  lhs : LpAffineExpression;
  csense : LpConstraintSense;
  rhs : Q
}.

Inductive LpSense : Type := LpMinimize | LpMaximize.

Record LpProblem : Type := mkLpProblem {
  problem_name : string;
  sense : LpSense;
  objective : LpAffineExpression;
  constraints : list LpConstraint
}.

(** The values of [model.status] and the table [LpStatus]. *)
Inductive LpStatusCode : Type :=
| LpStatusNotSolved
| LpStatusOptimal
| LpStatusInfeasible
| LpStatusUnbounded
| LpStatusUndefined.

Definition LpStatus (st : LpStatusCode) : string :=
  match st with
  | LpStatusNotSolved => "Not Solved"
  | LpStatusOptimal => "Optimal"
  | LpStatusInfeasible => "Infeasible"
  | LpStatusUnbounded => "Unbounded"
  | LpStatusUndefined => "Undefined"
  end.

(** The number [0] that Python's [sum] starts from. *)
Definition expr_zero : LpAffineExpression := {| terms := []; constant := 0 |}.

(** [x] used as an expression. *)
Definition expr_of_var (x : LpVariable) : LpAffineExpression :=
  {| terms := [(x, 1)]; constant := 0 |}.

(** [x * k] *)
Definition var_mul (x : LpVariable) (k : Q) : LpAffineExpression :=
  {| terms := [(x, k)]; constant := 0 |}.

(** [e1 + e2] *)
Definition expr_add (e1 e2 : LpAffineExpression) : LpAffineExpression :=
  {| terms := terms e1 ++ terms e2; constant := constant e1 + constant e2 |}.

(** Python's [sum(...)]: a left fold of [+] from [0]. *)
Definition py_sum (es : list LpAffineExpression) : LpAffineExpression :=
  fold_left expr_add es expr_zero.

(** [k <= x], which Python resolves to [x >= k]. *)
Definition var_ge (x : LpVariable) (k : Q) : LpConstraint :=
  {| lhs := expr_of_var x; csense := LpConstraintGE; rhs := k |}.

(** [k >= x], which Python resolves to [x <= k]. *)
Definition var_le (x : LpVariable) (k : Q) : LpConstraint :=
  {| lhs := expr_of_var x; csense := LpConstraintLE; rhs := k |}.

(** [e == k] *)
Definition expr_eq (e : LpAffineExpression) (k : Q) : LpConstraint :=
  {| lhs := e; csense := LpConstraintEQ; rhs := k |}.

(** [LpProblem(name, sense)] *)
Definition new_problem (nm : string) (s : LpSense) : LpProblem :=
  {| problem_name := nm; sense := s; objective := expr_zero; constraints := [] |}.

(** [model += e] for an expression [e] *)
Definition set_objective (p : LpProblem) (e : LpAffineExpression) : LpProblem :=
  {| problem_name := problem_name p; sense := sense p;
     objective := e; constraints := constraints p |}.

(** [model += c] for a constraint [c] *)
Definition add_constraint (p : LpProblem) (c : LpConstraint) : LpProblem :=
  {| problem_name := problem_name p; sense := sense p;
     objective := objective p; constraints := constraints p ++ [c] |}.

(** [sum(x for x in xs) == k]: a constraint, unless there is nothing to
    sum: then [sum] is the number [0] and the comparison is a boolean. *)
Definition sum_equals (xs : list LpVariable) (k : Q) : LpConstraint + bool :=
  match xs with
  | [] => inr (Qeq_bool 0 k)
  | _ :: _ => inl (expr_eq (py_sum (map expr_of_var xs)) k)
  end.

(** [model += c] where [c] is a constraint or a boolean: [True] changes
    nothing, [False] is refused. *)
Definition iadd (p : LpProblem) (c : LpConstraint + bool) : outcome LpProblem :=
  match c with
  | inl c => Returned (add_constraint p c)
  | inr true => Returned p
  | inr false => Raised TypeError
  end.

(** *** Meaning of a problem *)

(** A valuation gives each variable (by identity) its value. *)
Definition valuation : Type := nat -> Q.

Definition eval_expr (v : valuation) (e : LpAffineExpression) : Q :=
  fold_right (fun t acc => snd t * v (var_id (fst t)) + acc) (constant e) (terms e).

Definition constraint_holds (v : valuation) (c : LpConstraint) : Prop :=
  match csense c with
  | LpConstraintLE => eval_expr v (lhs c) <= rhs c
  | LpConstraintEQ => eval_expr v (lhs c) == rhs c
  | LpConstraintGE => rhs c <= eval_expr v (lhs c)
  end.

Definition within_bounds (v : valuation) (x : LpVariable) : Prop :=
  match lowBound x with Some l => l <= v (var_id x) | None => True end /\
  match upBound x with Some u => v (var_id x) <= u | None => True end.

(** The variables a problem mentions. *)
Definition problem_variables (p : LpProblem) : list LpVariable :=
  map fst (terms (objective p) ++ flat_map (fun c => terms (lhs c)) (constraints p)).

Definition feasible (p : LpProblem) (v : valuation) : Prop :=
  Forall (constraint_holds v) (constraints p) /\
  Forall (within_bounds v) (problem_variables p).

Definition objective_value (p : LpProblem) (v : valuation) : Q :=
  eval_expr v (objective p).

(** [w] is at least as good as [v] for the problem's sense. *)
Definition no_worse (p : LpProblem) (w v : valuation) : Prop :=
  match sense p with
  | LpMaximize => objective_value p v <= objective_value p w
  | LpMinimize => objective_value p w <= objective_value p v
  end.

Definition optimal (p : LpProblem) (v : valuation) : Prop :=
  feasible p v /\ forall w, feasible p w -> no_worse p v w.

(** The objective can be pushed beyond every bound. *)
Definition unbounded (p : LpProblem) : Prop :=
  forall M : Q, exists w, feasible p w /\
    match sense p with
    | LpMaximize => M < objective_value p w
    | LpMinimize => objective_value p w < M
    end.

(** [model.solve()] raises, or leaves a status in the model and a value in
    each variable. *)
Definition answer : Type := (LpStatusCode * valuation)%type.

Definition solver : Type := LpProblem -> outcome answer.

(** The status and the values left by a call that returned. *)
Definition answered (solve : solver) (p : LpProblem) : answer :=
  match solve p with
  | Returned a => a
  | Raised _ => (LpStatusNotSolved, fun _ => 0)
  end.

(** What an exact LP solver guarantees on a problem [p]: it returns, it
    ends in one of the three definite statuses, and each of them tells the
    truth. *)
Record exact_on (solve : solver) (p : LpProblem) : Prop := mk_exact_on {
  solver_returns : exists a, solve p = Returned a;
  status_definite :
    fst (answered solve p) = LpStatusOptimal \/
    fst (answered solve p) = LpStatusInfeasible \/
    fst (answered solve p) = LpStatusUnbounded;
  optimal_sound :
    fst (answered solve p) = LpStatusOptimal -> optimal p (snd (answered solve p));
  infeasible_sound :
    fst (answered solve p) = LpStatusInfeasible -> forall w, ~ feasible p w;
  unbounded_sound :
    fst (answered solve p) = LpStatusUnbounded -> unbounded p
}.

(** The variables of a problem, each once (by identity). *)
Fixpoint distinct_by_id (seen : list nat) (xs : list LpVariable) : list LpVariable :=
  match xs with
  | [] => []
  | x :: xs' =>
      if existsb (Nat.eqb (var_id x)) seen then distinct_by_id seen xs'
      else x :: distinct_by_id (var_id x :: seen) xs'
  end.

Definition variables (p : LpProblem) : list LpVariable :=
  distinct_by_id [] (problem_variables p).

Fixpoint repeats (l : list string) : bool :=
  match l with
  | [] => false
  | s :: l' => existsb (String.eqb s) l' || repeats l'
  end.

(** Two variables of the problem carry the same name. *)
Definition has_repeated_names (p : LpProblem) : bool :=
  repeats (map name (variables p)).


End Pulp.

(** ** Calls that read the caller's list of investment clouds

    The list [investment_clouds] and the objects in it belong to the caller
    and are mutable Python objects.  A computation therefore runs on a store
    that holds them and hands the store back, next to what it returned or
    raised. *)

Definition store : Type := list InvestmentCloud.

Definition M (A : Type) : Type := store -> outcome A * store.

Definition ret {A} (a : A) : M A := fun h => (Returned a, h).

Definition raise {A} (e : exn) : M A := fun h => (Raised e, h).

Definition bind {A B} (m : M A) (k : A -> M B) : M B :=
  fun h =>
    match m h with
    | (Returned a, h') => k a h'
    | (Raised e, h') => (Raised e, h')
    end.

Notation "x <- m ;; k" := (bind m (fun x => k))
  (at level 61, m at next level, right associativity).

(** [len(investment_clouds)] *)
Definition len_clouds : M nat := fun h => (Returned (List.length h), h).

(** [investment_clouds[i]] *)
Definition cloud_at (i : nat) : M InvestmentCloud :=
  fun h =>
    match nth_error h i with
    | Some c => (Returned c, h)
    | None => (Raised IndexError, h)
    end.

(** The elements met by [for investment_cloud in investment_clouds]. *)
Definition iter_clouds : M (list InvestmentCloud) := fun h => (Returned h, h).

(** [l[i]] on a local list. *)
Definition item {A} (l : list A) (i : nat) : M A :=
  match nth_error l i with
  | Some a => ret a
  | None => raise IndexError
  end.

(** A comprehension [[f(i) for i in l]]. *)
Fixpoint for_list {A B} (f : A -> M B) (l : list A) : M (list B) :=
  match l with
  | [] => ret []
  | a :: l' => b <- f a ;; bs <- for_list f l' ;; ret (b :: bs)
  end.

(** A loop [for i in l: acc = body(acc, i)]. *)
Fixpoint for_loop {A S} (body : S -> A -> M S) (l : list A) (acc : S) : M S :=
  match l with
  | [] => ret acc
  | a :: l' => acc' <- body acc a ;; for_loop body l' acc'
  end.

(** [range(n)] *)
Definition range (n : nat) : list nat := seq 0 n.

(** A call that does not touch the store. *)
Definition lift {A} (o : outcome A) : M A := fun h => (o, h).

(** ** [calculate_optimal_asset_dist] *)

Section Optimizer.

(** [model.solve()], with the library's default solver. *)
Variable solve : Pulp.solver.

(** [[LpVariable(investment_cloud.asset, lowBound=0) for investment_cloud in ...]]:
    one fresh variable per element, [next] being the identity of the first;
    the variable carries the name that the library keeps for the asset. *)
Fixpoint new_variables (next : nat) (clouds : list InvestmentCloud) : list Pulp.LpVariable :=
  match clouds with
  | [] => []
  | c :: clouds' =>
      {| Pulp.var_id := next; Pulp.name := Pulp.kept_name (asset c);
         Pulp.lowBound := Some 0; Pulp.upBound := None |}
      :: new_variables (S next) clouds'
  end.

(** The function, statement by statement.  For an empty list the last
    [model += ...] receives the boolean [False] and raises [TypeError]
    before any solver runs; an exception of [model.solve()] is passed on. *)
Definition calculate_optimal_asset_dist : M (list AssetDist) :=
  let model := Pulp.new_problem "Total expected return" Pulp.LpMaximize in
  clouds <- iter_clouds ;;
  let asset_dists := new_variables 0 clouds in
  n <- len_clouds ;;
  summands <- for_list (fun i =>
                x <- item asset_dists i ;;
                c <- cloud_at i ;;
                ret (Pulp.var_mul x (expected_return c))) (range n) ;;
  let model := Pulp.set_objective model (Pulp.py_sum summands) in
  n <- len_clouds ;;
  model <- for_loop (fun model i =>
                c <- cloud_at i ;;
                x <- item asset_dists i ;;
                let model := Pulp.add_constraint model (Pulp.var_ge x (minimum c)) in
                c <- cloud_at i ;;
                x <- item asset_dists i ;;
                ret (Pulp.add_constraint model (Pulp.var_le x (maximum c))))
             (range n) model ;;
  model <- lift (Pulp.iadd model (Pulp.sum_equals asset_dists 1)) ;;
  solved <- lift (solve model) ;;
  let (status, value) := solved in
  if negb (String.eqb (Pulp.LpStatus status) "Optimal")
  then raise NonFeasibleSolutionError
  else ret (map (fun x => {| name := Pulp.name x;
                             proportion := value (Pulp.var_id x) |}) asset_dists).

(** The problem when both loops are done, before the sum of the variables
    is constrained. *)
Definition lp_bounds (clouds : list InvestmentCloud) : Pulp.LpProblem :=
  let asset_dists := new_variables 0 clouds in
  let pairs := combine asset_dists clouds in
  {| Pulp.problem_name := "Total expected return";
     Pulp.sense := Pulp.LpMaximize;
     Pulp.objective :=
       Pulp.py_sum (map (fun xc => Pulp.var_mul (fst xc) (expected_return (snd xc))) pairs);
     Pulp.constraints :=
       flat_map (fun xc => [Pulp.var_ge (fst xc) (minimum (snd xc));
                            Pulp.var_le (fst xc) (maximum (snd xc))]) pairs |}.

(** The problem that the function hands to the solver, as a function of the
    clouds it read (there is at least one, or no solver is called). *)
Definition lp_model (clouds : list InvestmentCloud) : Pulp.LpProblem :=
  let asset_dists := new_variables 0 clouds in
  let pairs := combine asset_dists clouds in
  {| Pulp.problem_name := "Total expected return";
     Pulp.sense := Pulp.LpMaximize;
     Pulp.objective :=
       Pulp.py_sum (map (fun xc => Pulp.var_mul (fst xc) (expected_return (snd xc))) pairs);
     Pulp.constraints :=
       flat_map (fun xc => [Pulp.var_ge (fst xc) (minimum (snd xc));
                            Pulp.var_le (fst xc) (maximum (snd xc))]) pairs
       ++ [Pulp.expr_eq (Pulp.py_sum (map Pulp.expr_of_var asset_dists)) 1] |}.

(** The results built from the values of the variables. *)
Definition results_of (value : Pulp.valuation) (cs : list InvestmentCloud) : list AssetDist :=
  map (fun x => {| name := Pulp.name x; proportion := value (Pulp.var_id x) |})
      (new_variables 0 cs).

(** What the function returns or raises on a list that is not empty, as a
    function of the clouds. *)
Definition allocation (clouds : list InvestmentCloud) : outcome (list AssetDist) :=
  match solve (lp_model clouds) with
  | Raised e => Raised e
  | Returned (status, value) =>
      if negb (String.eqb (Pulp.LpStatus status) "Optimal")
      then Raised NonFeasibleSolutionError
      else Returned (results_of value clouds)
  end.

End Optimizer.

(** One round of the loop that adds the two bounds of a cloud. *)
Definition add_bounds (model : Pulp.LpProblem) (xc : Pulp.LpVariable * InvestmentCloud)
  : Pulp.LpProblem :=
  Pulp.add_constraint
    (Pulp.add_constraint model (Pulp.var_ge (fst xc) (minimum (snd xc))))
    (Pulp.var_le (fst xc) (maximum (snd xc))).

(** Sums over the clouds and over the results. *)
Fixpoint Qsum (l : list Q) : Q :=
  match l with
  | [] => 0
  | q :: l' => q + Qsum l'
  end.

Definition sum_minimum (clouds : list InvestmentCloud) : Q := Qsum (map minimum clouds).
Definition sum_maximum (clouds : list InvestmentCloud) : Q := Qsum (map maximum clouds).
Definition sum_proportion (res : list AssetDist) : Q := Qsum (map proportion res).

(** The values that a valuation gives to the variables of the clouds. *)
Definition values_of (v : Pulp.valuation) (first n : nat) : list Q :=
  map v (seq first n).

(** The value of each variable lies between both bounds of its cloud and is
    not negative. *)
Definition in_box (cs : list InvestmentCloud) (qs : list Q) : Prop :=
  Forall2 (fun c q => 0 <= q /\ minimum c <= q /\ q <= maximum c) cs qs.

(** The valuation that gives the variable [i] the [i]-th number of a list. *)
Definition valuation_of (qs : list Q) : Pulp.valuation := fun i => nth i qs 0.

(** A point between the lower and the upper bound of a cloud. *)
Definition blend (t : Q) (c : InvestmentCloud) : Q :=
  minimum c + t * (maximum c - minimum c).

(** The share of the way from the minimums to the maximums at which the sum
    is [1]. *)
Definition blend_share (cs : list InvestmentCloud) : Q :=
  if Qeq_bool (sum_maximum cs) (sum_minimum cs) then 0
  else (1 - sum_minimum cs) / (sum_maximum cs - sum_minimum cs).

(** Total expected return of an allocation. *)
Definition total_return (clouds : list InvestmentCloud) (res : list AssetDist) : Q :=
  Qsum (map (fun cr => expected_return (fst cr) * proportion (snd cr)) (combine clouds res)).

(** A result within the bounds of its cloud. *)
Definition within (c : InvestmentCloud) (r : AssetDist) : Prop :=
  minimum c <= proportion r /\ proportion r <= maximum c.

(** The clouds of [render], with the labels of the specification's example. *)
Definition example_clouds : list InvestmentCloud :=
  [ {| asset := "A"; expected_return := 15 # 100; minimum := 10 # 100; maximum := 55 # 100 |};
    {| asset := "B"; expected_return := 2 # 10; minimum := 11 # 100; maximum := 50 # 100 |};
    {| asset := "C"; expected_return := 3 # 10; minimum := 5 # 100; maximum := 50 # 100 |};
    {| asset := "D"; expected_return := 1 # 10; minimum := 20 # 100; maximum := 60 # 100 |} ].

(** ** A reference solver for the problems of this module

    The problems built above have one shape: every variable has a lower and
    an upper bound, and one equation fixes the sum of all variables.  For
    that shape the optimum is found greedily: start every variable at its
    lower bound and hand the rest of the budget to the variables in the
    order of decreasing objective coefficient.  The reference solver shows
    that the guarantees [Pulp.exact_on] can be met. *)

Module Reference.

Import Pulp.

(** The variable of an expression of the form [1 * x + 0]. *)
Definition single_variable (e : LpAffineExpression) : option LpVariable :=
  match terms e with
  | [(x, k)] => if Qeq_bool k 1 && Qeq_bool (constant e) 0 then Some x else None
  | _ => None
  end.

Definition is_budget (c : LpConstraint) : bool :=
  match csense c with
  | LpConstraintEQ =>
      Qeq_bool (constant (lhs c)) 0 && forallb (fun t => Qeq_bool (snd t) 1) (terms (lhs c))
  | _ => false
  end.

(** Is [c] a bound of the given sense on the variable [i]? *)
Definition bound_on (s : LpConstraintSense) (i : nat) (c : LpConstraint) : option Q :=
  match single_variable (lhs c), s, csense c with
  | Some x, LpConstraintGE, LpConstraintGE
  | Some x, LpConstraintLE, LpConstraintLE =>
      if Nat.eqb (var_id x) i then Some (rhs c) else None
  | _, _, _ => None
  end.

Definition is_bound (c : LpConstraint) : bool :=
  match single_variable (lhs c), csense c with
  | Some _, LpConstraintGE | Some _, LpConstraintLE => true
  | _, _ => false
  end.

Fixpoint pick {A B} (f : A -> option B) (l : list A) : list B :=
  match l with
  | [] => []
  | a :: l' => match f a with Some b => b :: pick f l' | None => pick f l' end
  end.

Definition Qmaximum (l : list Q) : option Q :=
  match l with [] => None | a :: l' => Some (fold_left Qmax l' a) end.

Definition Qminimum (l : list Q) : option Q :=
  match l with [] => None | a :: l' => Some (fold_left Qmin l' a) end.

Definition opt_list (o : option Q) : list Q :=
  match o with Some q => [q] | None => [] end.

(** One variable of a box-with-budget problem. *)
Record item : Type := mkItem {
  item_id : nat;
  lower : Q;
  upper : Q;
  gain : Q
}.

Definition coefficient (e : LpAffineExpression) (i : nat) : Q :=
  Qsum (pick (fun t => if Nat.eqb (var_id (fst t)) i then Some (snd t) else None) (terms e)).

Definition item_of (p : LpProblem) (x : LpVariable) : option item :=
  let i := var_id x in
  match Qmaximum (opt_list (lowBound x) ++ pick (bound_on LpConstraintGE i) (constraints p)),
        Qminimum (opt_list (upBound x) ++ pick (bound_on LpConstraintLE i) (constraints p)) with
  | Some l, Some u =>
      Some {| item_id := i; lower := l; upper := u; gain := coefficient (objective p) i |}
  | _, _ => None
  end.

Fixpoint all_some {A} (l : list (option A)) : option (list A) :=
  match l with
  | [] => Some []
  | Some a :: l' => match all_some l' with Some r => Some (a :: r) | None => None end
  | None :: _ => None
  end.

(** The budget and the items of a problem of the expected shape. *)
Definition decode (p : LpProblem) : option (Q * list item) :=
  match filter is_budget (constraints p) with
  | [b] =>
      if forallb (fun c => is_budget c || is_bound c) (constraints p)
      then match all_some (map (fun t => item_of p (fst t)) (terms (lhs b))) with
           | Some items => Some (rhs b, items)
           | None => None
           end
      else None
  | _ => None
  end.

(** Insertion into a list sorted by decreasing gain. *)
Fixpoint insert_by_gain (a : item) (l : list item) : list item :=
  match l with
  | [] => [a]
  | b :: l' => if Qle_bool (gain b) (gain a) then a :: l
               else b :: insert_by_gain a l'
  end.

Definition sort_by_gain (l : list item) : list item :=
  fold_right insert_by_gain [] l.

(** Hand [rest] out along the list, each item taking what it can hold. *)
Fixpoint fill (rest : Q) (l : list item) : list (nat * Q) :=
  match l with
  | [] => []
  | a :: l' =>
      let d := Qmin (upper a - lower a) rest in
      (item_id a, Qred (lower a + d)) :: fill (rest - d) l'
  end.

Fixpoint lookup (i : nat) (l : list (nat * Q)) : Q :=
  match l with
  | [] => 0
  | (j, q) :: l' => if Nat.eqb i j then q else lookup i l'
  end.

Definition box_budget_feasible (budget : Q) (items : list item) : bool :=
  forallb (fun a => Qle_bool (lower a) (upper a)) items
  && Qle_bool (Qsum (map lower items)) budget
  && Qle_bool budget (Qsum (map upper items)).

Definition answer_of : LpProblem -> answer :=
  fun p =>
    match decode p with
    | None => (LpStatusUndefined, fun _ => 0)
    | Some (budget, items) =>
        if box_budget_feasible budget items
        then
          let values :=
            match sense p with
            | LpMaximize => fill (budget - Qsum (map lower items)) (sort_by_gain items)
            | LpMinimize => fill (budget - Qsum (map lower items)) (rev (sort_by_gain items))
            end in
          (LpStatusOptimal, fun i => lookup i values)
        else (LpStatusInfeasible, fun _ => 0)
    end.

(** The reference solver never gives up. *)
Definition solve : solver := fun p => Returned (answer_of p).

(** The reference solver behind the library's check of the names. *)
Definition solve_named : solver :=
  fun p => if has_repeated_names p then Raised PulpSolverError else solve p.

End Reference.

(** Seven results, as a portfolio of seven assets gives. *)
Definition seven_assets : list AssetDist :=
  map (fun s => {| name := s; proportion := 1 # 7 |})
      ["a"; "b"; "c"; "d"; "e"; "f"; "g"]%string.

Definition four_assets : list AssetDist :=
  map (fun s => {| name := s; proportion := 1 # 4 |})
      ["a"; "b"; "c"; "d"]%string.

(** *** The reference solver, seen from the clouds *)

(** The items that the reference solver reads off the problem of [cs]. *)
Fixpoint items_of (next : nat) (cs : list InvestmentCloud) : list Reference.item :=
  match cs with
  | [] => []
  | c :: cs' =>
      {| Reference.item_id := next;
         Reference.lower := Qmax 0 (minimum c);
         Reference.upper := maximum c;
         Reference.gain := expected_return c + 0 |}
      :: items_of (S next) cs'
  end.

(** Sorted by decreasing gain. *)
Definition descending (l : list Reference.item) : Prop :=
  StronglySorted (fun a b => Reference.gain b <= Reference.gain a) l.

(** A number within the bounds of an item. *)
Definition fits (a : Reference.item) (q : Q) : Prop :=
  Reference.lower a <= q /\ q <= Reference.upper a.

(** The objective on a list of items and their values. *)
Definition yield (l : list Reference.item) (qs : list Q) : Q :=
  Qsum (map (fun aq => Reference.gain (fst aq) * snd aq) (combine l qs)).

(** What the items can take above their lower bounds. *)
Definition capacity (l : list Reference.item) : Q :=
  Qsum (map (fun a => Reference.upper a - Reference.lower a) l).

(** The allocation that is optimal for [example_clouds]. *)
Definition example_optimum : list Q := [1 # 10; 1 # 5; 1 # 2; 1 # 5].

(** Clouds whose minimums sum to more than [1], and clouds whose maximums
    sum to less than [1]. *)
Definition overfull_clouds : list InvestmentCloud :=
  [ {| asset := "A"; expected_return := 1 # 10; minimum := 6 # 10; maximum := 7 # 10 |};
    {| asset := "B"; expected_return := 2 # 10; minimum := 6 # 10; maximum := 8 # 10 |} ].

Definition underfull_clouds : list InvestmentCloud :=
  [ {| asset := "A"; expected_return := 1 # 10; minimum := 1 # 10; maximum := 3 # 10 |};
    {| asset := "B"; expected_return := 2 # 10; minimum := 2 # 10; maximum := 3 # 10 |} ].

(** ** [render] and [synchronize_data]

    The page that [render] draws is made by the UI library; what is modelled
    here is what [render] computes from the clouds: the cloud behind the
    selected label, the table, what the "Optimise portfolio" branch shows,
    and the document that [synchronize_data] stores. *)

Module Render.

(** [[cloud.asset for cloud in investment_clouds]], the options of the
    select box. *)
Definition options (investment_clouds : list InvestmentCloud) : list string :=
  map asset investment_clouds.

(** [next(cloud for cloud in investment_clouds if cloud.asset == selected_cloud)]:
    the first cloud that carries the label; [None] stands for the
    [StopIteration] that [next] raises when the generator is exhausted. *)
Fixpoint selected_investment (investment_clouds : list InvestmentCloud)
         (selected_cloud : string) : option InvestmentCloud :=
  match investment_clouds with
  | [] => None
  | cloud :: rest =>
      if String.eqb (asset cloud) selected_cloud then Some cloud
      else selected_investment rest selected_cloud
  end.

(** A value in the table: a label or a number. *)
Inductive cell : Type :=
| Str (s : string)
| Num (q : Q).

(** The dict [table]: column names with their columns, in insertion order. *)
Definition table (investment_clouds : list InvestmentCloud) : list (string * list cell) :=
  [ ("Asset"%string, map (fun c => Str (asset c)) investment_clouds);
    ("Expected return"%string, map (fun c => Num (expected_return c)) investment_clouds);
    ("Minimum investment"%string, map (fun c => Num (minimum c)) investment_clouds);
    ("Maximum investment"%string, map (fun c => Num (maximum c)) investment_clouds) ].

(** The number of rows of a frame made from columns (the frame library
    refuses columns of different lengths; those of [table] are equally
    long). *)
Definition n_rows (df : list (string * list cell)) : nat :=
  match df with
  | [] => 0%nat
  | (_, column) :: _ => List.length column
  end.

(** Row [i] of a frame as a dict from column name to value. *)
Definition record_at (df : list (string * list cell)) (i : nat) : list (string * cell) :=
  flat_map (fun kc => match nth_error (snd kc) i with
                      | Some v => [(fst kc, v)]
                      | None => []
                      end) df.

(** [df.to_dict(orient="records")]: one dict per row. *)
Definition to_dict_records (df : list (string * list cell)) : list (list (string * cell)) :=
  map (record_at df) (seq 0 (n_rows df)).

(** A stored document [{"data": ...}]. *)
Record document : Type := mkDocument {
  data : list (list (string * cell))
}.

(** [collection.insert_one(doc)] on the collection as the list of its
    documents. *)
Definition insert_one (collection : list document) (doc : document) : list document :=
  collection ++ [doc].

(** [synchronize_data(df)], as a function of the collection. *)
Definition synchronize_data (df : list (string * list cell)) (collection : list document)
  : list document :=
  let data_to_be_sent := to_dict_records df in
  insert_one collection {| data := data_to_be_sent |}.

(** The row of one cloud. *)
Definition record_of (c : InvestmentCloud) : list (string * cell) :=
  [ ("Asset"%string, Str (asset c));
    ("Expected return"%string, Num (expected_return c));
    ("Minimum investment"%string, Num (minimum c));
    ("Maximum investment"%string, Num (maximum c)) ].

(** What the "Optimise portfolio" branch puts on the page. *)
Inductive shown : Type :=
| Pyplot (call : Palette.PieCall)
| StError (message : string).

(** The rest of [display_assets_pie], from [plt.subplots] to [st.pyplot]:
    the plotting library draws the pie it is asked for, or raises. *)
Definition plotter : Type := Palette.PieCall -> outcome unit.

(** The body of [if st.button("Optimise portfolio")]: the [try] block and its
    [except NonFeasibleSolutionError] clause; any other exception leaves the
    block. *)
Definition optimise_portfolio (solve : Pulp.solver) (draw : plotter) : M shown :=
  fun h =>
    match (optimised_asset_dist <- calculate_optimal_asset_dist solve ;;
           call <- lift (Palette.display_assets_pie optimised_asset_dist) ;;
           _ <- lift (draw call) ;;
           ret call) h with
    | (Returned call, h') => (Returned (Pyplot call), h')
    | (Raised NonFeasibleSolutionError, h') =>
        (Returned (StError "Non feasible investment clouds"), h')
    | (Raised e, h') => (Raised e, h')
    end.

(** A plotter that draws whatever it is asked for. *)
Definition draws_all : plotter := fun _ => Returned tt.

End Render.

(** The lower bound that a variable really has: its [lowBound=0] and the
    minimum of its cloud. *)
Definition floor (c : InvestmentCloud) : Q := Qmax 0 (minimum c).

(** An allocation that meets every constraint of the problem. *)
Definition admissible (cs : list InvestmentCloud) (qs : list Q) : Prop :=
  in_box cs qs /\ Qsum qs == 1.

(** A cloud that can take the whole capital. *)
Definition whole_cloud : InvestmentCloud :=
  {| asset := "A"; expected_return := 1 # 10; minimum := 0; maximum := 1 |}.


(** Two valid clouds with the same label. *)
Definition twin_clouds : list InvestmentCloud :=
  [ {| asset := "A"; expected_return := 1 # 10; minimum := 0; maximum := 1 |};
    {| asset := "A"; expected_return := 2 # 10; minimum := 0; maximum := 1 |} ].


(** The results of the reference solver on [example_clouds], and another
    allocation that meets the constraints of the example. *)
Definition example_results : list AssetDist :=
  [ {| name := "A"; proportion := 1 # 10 |}; {| name := "B"; proportion := 1 # 5 |};
    {| name := "C"; proportion := 1 # 2 |}; {| name := "D"; proportion := 1 # 5 |} ].

Definition other_results : list AssetDist :=
  [ {| name := "A"; proportion := 1 # 5 |}; {| name := "B"; proportion := 1 # 5 |};
    {| name := "C"; proportion := 2 # 5 |}; {| name := "D"; proportion := 1 # 5 |} ].

(** The valuation [v] with [d] added to the value of the variable [i]. *)
Definition bump (v : Pulp.valuation) (i : nat) (d : Q) : Pulp.valuation :=
  fun k => if Nat.eqb k i then v k + d else v k.

(** * Properties *)

(** ** Comparisons *)

Lemma Qltb_iff (a b : Q) : Qltb a b = true <-> a < b.
Proof.
  unfold Qltb. rewrite negb_true_iff. split.
  - intros H. apply Qnot_le_lt. intros Hle.
    apply Qle_bool_iff in Hle. congruence.
  - intros H. destruct (Qle_bool b a) eqn:E; [|reflexivity].
    apply Qle_bool_iff in E. exfalso. apply (Qlt_not_le _ _ H E).
Qed.

Lemma Qltb_false_iff (a b : Q) : Qltb a b = false <-> b <= a.
Proof.
  unfold Qltb. rewrite negb_false_iff. apply Qle_bool_iff.
Qed.

Lemma Qgtb_iff (a b : Q) : Qgtb a b = true <-> b < a.
Proof. apply Qltb_iff. Qed.

Lemma Qgtb_false_iff (a b : Q) : Qgtb a b = false <-> a <= b.
Proof. apply Qltb_false_iff. Qed.

(** ** The constructor of [InvestmentCloud] *)

Lemma float_lt_finite (x y : Q) : float_lt (Finite x) (Finite y) = true <-> x < y.
Proof. apply Qltb_iff. Qed.

Lemma float_le_finite (x y : Q) : float_le (Finite x) (Finite y) = true <-> x <= y.
Proof. apply Qle_bool_iff. Qed.

(** The guard on finite numbers. *)
Lemma init_guard_iff (mn mx : Q) :
  float_lt (Finite mn) (Finite 0) || float_gt (Finite mn) (Finite mx)
  || float_gt (Finite mx) (Finite 1) = true
  <-> (mn < 0 \/ mx < mn \/ 1 < mx).
Proof.
  unfold float_gt. rewrite !orb_true_iff, !float_lt_finite. tauto.
Qed.

Lemma init_guard_false_iff (mn mx : Q) :
  float_lt (Finite mn) (Finite 0) || float_gt (Finite mn) (Finite mx)
  || float_gt (Finite mx) (Finite 1) = false
  <-> (0 <= mn /\ mn <= mx /\ mx <= 1).
Proof.
  unfold float_gt, float_lt. rewrite !orb_false_iff, !Qltb_false_iff. tauto.
Qed.

(** When the guard lets two numbers through and neither is NaN, both are
    finite and ordered as the invariant asks. *)
Lemma init_guard_passed (mn mx : pyfloat) :
  float_lt mn (Finite 0) || float_gt mn mx || float_gt mx (Finite 1) = false ->
  mn <> NaN -> mx <> NaN ->
  exists qmn qmx, mn = Finite qmn /\ mx = Finite qmx /\
                  0 <= qmn /\ qmn <= qmx /\ qmx <= 1.
Proof.
  intros G Hmn Hmx.
  destruct mn as [qmn | | |]; destruct mx as [qmx | | |];
    try contradiction;
    try (cbn in G; rewrite ?orb_false_r, ?orb_true_r in G; discriminate G).
  exists qmn, qmx. split; [reflexivity|]. split; [reflexivity|].
  now apply init_guard_false_iff.
Qed.

(** C3.  The guard misses NaN: with [minimum = nan] (or [maximum = nan])
    none of the three comparisons holds, nothing is raised, and the object
    that is built does not satisfy [0 <= minimum <= maximum <= 1]. *)
Theorem InvestmentCloud_init_accepts_nan :
  InvestmentCloud_init "x" (Finite (1 # 10)) NaN (Finite (1 # 2))
  = Returned {| self_asset := "x"; self_expected_return := Finite (1 # 10);
                self_minimum := NaN; self_maximum := Finite (1 # 2) |} /\
  invariant {| self_asset := "x"; self_expected_return := Finite (1 # 10);
               self_minimum := NaN; self_maximum := Finite (1 # 2) |} = false /\
  InvestmentCloud_init "x" (Finite (1 # 10)) (Finite (1 # 2)) NaN
  = Returned {| self_asset := "x"; self_expected_return := Finite (1 # 10);
                self_minimum := Finite (1 # 2); self_maximum := NaN |} /\
  invariant {| self_asset := "x"; self_expected_return := Finite (1 # 10);
               self_minimum := Finite (1 # 2); self_maximum := NaN |} = false.
Proof. repeat split. Qed.

(** X13.  The constructor on every float input.  It raises
    [InvalidInvestmentCloudParameterError], and nothing else, exactly when
    one of its three comparisons holds, whatever the asset and the expected
    return are; on finite numbers that is exactly when [minimum < 0],
    [minimum > maximum] or [maximum > 1].  Otherwise it returns the object
    that holds the four arguments, and this object satisfies
    [0 <= minimum <= maximum <= 1] exactly when neither bound is NaN: both
    bounds are then finite, so that an infinite bound next to a number is
    always refused. *)
Theorem InvestmentCloud_init_on_floats :
  forall (a : string) (r mn mx : pyfloat),
    (InvestmentCloud_init a r mn mx = Raised InvalidInvestmentCloudParameterError
       <-> (float_lt mn (Finite 0) = true \/ float_gt mn mx = true
            \/ float_gt mx (Finite 1) = true)) /\
    (forall qmn qmx, mn = Finite qmn -> mx = Finite qmx ->
       (InvestmentCloud_init a r mn mx = Raised InvalidInvestmentCloudParameterError
          <-> (qmn < 0 \/ qmx < qmn \/ 1 < qmx))) /\
    (forall e, InvestmentCloud_init a r mn mx = Raised e ->
       e = InvalidInvestmentCloudParameterError) /\
    (forall o, InvestmentCloud_init a r mn mx = Returned o ->
       o = {| self_asset := a; self_expected_return := r;
              self_minimum := mn; self_maximum := mx |} /\
       (invariant o = true <-> mn <> NaN /\ mx <> NaN) /\
       (mn <> NaN -> mx <> NaN ->
        exists qmn qmx, mn = Finite qmn /\ mx = Finite qmx /\
                        0 <= qmn /\ qmn <= qmx /\ qmx <= 1)).
Proof.
  intros a r mn mx. unfold InvestmentCloud_init.
  destruct (float_lt mn (Finite 0) || float_gt mn mx || float_gt mx (Finite 1)) eqn:G.
  - split; [|split; [|split]].
    + split; [intros _ | reflexivity].
      rewrite !orb_true_iff in G. tauto.
    + intros qmn qmx -> ->. split; [intros _ | reflexivity].
      now apply init_guard_iff.
    + intros e He. now inversion He.
    + intros o Ho. discriminate Ho.
  - split; [|split; [|split]].
    + split; [discriminate|]. intros H. rewrite !orb_false_iff in G.
      destruct G as [[G1 G2] G3]. destruct H as [H | [H | H]]; congruence.
    + intros qmn qmx -> ->. split; [discriminate|].
      intros H. apply init_guard_iff in H. congruence.
    + intros e He. discriminate He.
    + intros o Ho. inversion Ho; subst o. clear Ho.
      split; [reflexivity|]. split; [|now apply init_guard_passed].
      unfold invariant. cbn [self_minimum self_maximum]. split.
      * intros Hinv. split; intros ->.
        -- cbn in Hinv. discriminate Hinv.
        -- destruct mn; cbn in Hinv; rewrite ?andb_false_r in Hinv; discriminate Hinv.
      * intros [Hmn Hmx].
        destruct (init_guard_passed mn mx G Hmn Hmx)
          as (qmn & qmx & -> & -> & H0 & H1 & H2).
        rewrite !andb_true_iff, !float_le_finite. tauto.
Qed.

(** Every cloud with finite numbers that the constructor returns satisfies
    [bounds_ok]. *)
Lemma constructed_bounds_ok (a : string) (r mn mx : pyfloat)
      (o : InvestmentCloudObject) (c : InvestmentCloud) :
  InvestmentCloud_init a r mn mx = Returned o -> finite_cloud o = Some c -> bounds_ok c.
Proof.
  unfold InvestmentCloud_init.
  destruct (float_lt mn (Finite 0) || float_gt mn mx || float_gt mx (Finite 1)) eqn:G;
    [discriminate|].
  intros Ho. inversion Ho; subst o. clear Ho. unfold finite_cloud. simpl.
  destruct r as [qr | | |]; try discriminate.
  destruct mn as [qmn | | |]; try discriminate.
  destruct mx as [qmx | | |]; try discriminate.
  intros Hc. inversion Hc; subst c. unfold bounds_ok. simpl.
  now apply init_guard_false_iff.
Qed.

(** ** The palette *)

Lemma all_combinations_In (r g b : Z) :
  In (r, g, b) Palette.all_combinations <->
  ((r = 0 \/ r = 1) /\ (g = 0 \/ g = 1) /\ (b = 0 \/ b = 1))%Z.
Proof.
  unfold Palette.all_combinations. simpl. split.
  - intros H.
    repeat match goal with
           | H : _ \/ _ |- _ => destruct H as [H | H]
           | H : (_, _, _) = (_, _, _) |- _ => inversion H; clear H; subst
           | H : False |- _ => contradiction
           end; lia.
  - intros ([-> | ->] & [-> | ->] & [-> | ->]); tauto.
Qed.

Lemma rgb_binary_combinations_In (rgb : Z * Z * Z) :
  In rgb Palette.rgb_binary_combinations <->
  In rgb Palette.all_combinations /\ rgb <> (0, 0, 0)%Z /\ rgb <> (1, 1, 1)%Z.
Proof.
  unfold Palette.rgb_binary_combinations. rewrite filter_In.
  destruct rgb as [[r g] b]. split.
  - intros [Hin Hk]. split; [exact Hin|].
    split; intros E; inversion E; subst; discriminate Hk.
  - intros (Hin & Hb & Hw). split; [exact Hin|].
    apply all_combinations_In in Hin.
    destruct Hin as ([-> | ->] & [-> | ->] & [-> | ->]);
      try reflexivity; exfalso; (now apply Hb) || (now apply Hw).
Qed.

Lemma colors_value :
  Palette.colors =
  ["#CC3333"; "#33CC33"; "#CCCC33"; "#3333CC"; "#CC33CC"; "#33CCCC"]%string.
Proof. reflexivity. Qed.

Lemma colors_NoDup : NoDup Palette.colors.
Proof.
  rewrite colors_value.
  repeat constructor; simpl; intros H;
    repeat match goal with
           | H : _ \/ _ |- _ => destruct H as [H | H]
           | H : _ = _ |- _ => discriminate H
           | H : False |- _ => contradiction
           end.
Qed.

(** C7.  The palette comes from the eight combinations of [(r, g, b)] over
    [{0, 1}], listed once each in a fixed order; the all-zero and the all-one
    combination are dropped, which leaves six; a bit [0] is written ["33"]
    and a bit [1] is written ["CC"], for red, green and blue in that order
    after ['#']; the six strings are pairwise distinct, each is ['#'] and six
    hexadecimal digits, and none is the string of the all-zero or of the
    all-one combination. *)
Theorem palette_construction :
  (List.length Palette.all_combinations = 8%nat /\
   NoDup Palette.all_combinations /\
   forall r g b : Z,
     In (r, g, b) Palette.all_combinations <->
     ((r = 0 \/ r = 1) /\ (g = 0 \/ g = 1) /\ (b = 0 \/ b = 1))%Z) /\
  (List.length Palette.rgb_binary_combinations = 6%nat /\
   forall rgb,
     In rgb Palette.rgb_binary_combinations <->
     In rgb Palette.all_combinations /\ rgb <> (0, 0, 0)%Z /\ rgb <> (1, 1, 1)%Z) /\
  (Palette.rgb_component 0 = "33"%string /\
   Palette.rgb_component 1 = "CC"%string /\
   Palette.colors =
     map (fun rgb => ("#" ++ Palette.rgb_component (fst (fst rgb))
                          ++ Palette.rgb_component (snd (fst rgb))
                          ++ Palette.rgb_component (snd rgb))%string)
         Palette.rgb_binary_combinations) /\
  (List.length Palette.colors = 6%nat /\
   NoDup Palette.colors /\
   Forall (fun s => Palette.is_hex_color s = true) Palette.colors /\
   ~ In (Palette.color_of (0, 0, 0)%Z) Palette.colors /\
   ~ In (Palette.color_of (1, 1, 1)%Z) Palette.colors /\
   Palette.color_of (0, 0, 0)%Z = "#333333"%string /\
   Palette.color_of (1, 1, 1)%Z = "#CCCCCC"%string).
Proof.
  split; [|split; [|split]].
  - split; [reflexivity|]. split; [|exact all_combinations_In].
    unfold Palette.all_combinations. simpl.
    repeat constructor; simpl; intros H;
      repeat match goal with
             | H : _ \/ _ |- _ => destruct H as [H | H]
             | H : (_, _, _) = (_, _, _) |- _ => discriminate H
             | H : False |- _ => contradiction
             end.
  - split; [reflexivity | exact rgb_binary_combinations_In].
  - repeat split.
  - split; [reflexivity|]. split; [exact colors_NoDup|].
    split; [rewrite colors_value; repeat constructor|].
    rewrite colors_value. simpl.
    repeat split; intros H;
      repeat match goal with
             | H : _ \/ _ |- _ => destruct H as [H | H]
             | H : _ = _ |- _ => discriminate H
             | H : False |- _ => contradiction
             end.
Qed.

(** C10.  The palette is exactly this list, in this order. *)
Theorem palette_is_fixed_list :
  Palette.colors =
  ["#CC3333"; "#33CC33"; "#CCCC33"; "#3333CC"; "#CC33CC"; "#33CCCC"]%string.
Proof. exact colors_value. Qed.

(** C4, as stated, fails: for seven assets nothing is raised and the colour
    list has six entries; for four assets the colour list has six entries,
    not four. *)
Lemma palette_seven_not_refused :
  List.length seven_assets = 7%nat /\
  (forall e, Palette.display_assets_pie seven_assets <> Raised e) /\
  (exists call, Palette.display_assets_pie seven_assets = Returned call /\
                List.length (Palette.pie_colors call) = 6%nat) /\
  List.length four_assets = 4%nat /\
  (exists call, Palette.display_assets_pie four_assets = Returned call /\
                List.length (Palette.pie_colors call) = 6%nat).
Proof.
  split; [reflexivity|]. split; [intros e H; discriminate H|].
  split; [eexists; split; reflexivity|].
  split; [reflexivity|]. eexists; split; reflexivity.
Qed.

Lemma NoDup_firstn {A} (n : nat) (l : list A) : NoDup l -> NoDup (firstn n l).
Proof.
  revert n. induction l as [|a l IH]; intros n Hnd.
  - rewrite firstn_nil. constructor.
  - destruct n as [|n]; simpl; [constructor|].
    inversion Hnd as [|? ? Hnotin Hnd']; subst. constructor.
    + intros Hin. apply Hnotin.
      rewrite <- (firstn_skipn n l). apply in_or_app. now left.
    + now apply IH.
Qed.

(** C4, amended.  For every list of assets, of any length, nothing is
    raised and the colour list is the fixed list of six pairwise distinct
    colours; for every [N <= 6] its first [N] entries are [N] pairwise
    distinct colours, taken in order from the front of the fixed list. *)
Theorem palette_same_for_every_count :
  forall assets : list AssetDist,
    exists call,
      Palette.display_assets_pie assets = Returned call /\
      Palette.pie_labels call = map name assets /\
      Palette.pie_colors call = Palette.colors /\
      List.length (Palette.pie_colors call) = 6%nat /\
      NoDup (Palette.pie_colors call) /\
      forall N, (N <= 6)%nat ->
        List.length (firstn N (Palette.pie_colors call)) = N /\
        NoDup (firstn N (Palette.pie_colors call)) /\
        exists rest, Palette.colors = firstn N (Palette.pie_colors call) ++ rest.
Proof.
  intros assets. eexists. split; [reflexivity|]. simpl.
  split; [reflexivity|]. split; [reflexivity|]. split; [reflexivity|].
  split; [exact colors_NoDup|].
  intros N HN. split; [|split].
  - rewrite length_firstn. change (List.length Palette.colors) with 6%nat. lia.
  - apply NoDup_firstn. exact colors_NoDup.
  - exists (skipn N Palette.colors). symmetry. apply firstn_skipn.
Qed.

(** ** Reading the store *)

Lemma bind_returned {A B} (m : M A) (k : A -> M B) (h : store) (a : A) :
  m h = (Returned a, h) -> bind m k h = k a h.
Proof. intros E. unfold bind. now rewrite E. Qed.

Lemma nth_error_middle {A} (pre : list A) (a : A) (post : list A) :
  nth_error (pre ++ a :: post) (List.length pre) = Some a.
Proof.
  rewrite nth_error_app2 by lia. now rewrite Nat.sub_diag.
Qed.

Lemma new_variables_length (k : nat) (clouds : list InvestmentCloud) :
  List.length (new_variables k clouds) = List.length clouds.
Proof.
  revert k. induction clouds as [|c clouds IH]; intros k; simpl; [reflexivity|].
  now rewrite IH.
Qed.

Lemma cloud_at_middle (pc : list InvestmentCloud) (c : InvestmentCloud)
      (cs : list InvestmentCloud) :
  cloud_at (List.length pc) (pc ++ c :: cs) = (Returned c, pc ++ c :: cs).
Proof. unfold cloud_at. now rewrite nth_error_middle. Qed.

Lemma item_middle {A} (px : list A) (x : A) (xs : list A) (h : store) :
  item (px ++ x :: xs) (List.length px) h = (Returned x, h).
Proof. unfold item. now rewrite nth_error_middle. Qed.

Lemma snoc_app {A} (pre : list A) (a : A) (post : list A) :
  pre ++ a :: post = (pre ++ [a]) ++ post.
Proof. now rewrite <- app_assoc. Qed.

Lemma snoc_length {A} (pre : list A) (a : A) :
  List.length (pre ++ [a]) = S (List.length pre).
Proof. rewrite length_app. simpl. lia. Qed.

(** A comprehension over [range] that reads [vars[i]] and
    [investment_clouds[i]] sees the two lists side by side and leaves the
    store as it was. *)
Lemma for_list_reads {X B} (F : X -> InvestmentCloud -> B) :
  forall (cs : list InvestmentCloud) (xs : list X)
         (pc : list InvestmentCloud) (px : list X),
    List.length px = List.length pc ->
    List.length xs = List.length cs ->
    for_list (fun i => x <- item (px ++ xs) i ;; c <- cloud_at i ;; ret (F x c))
             (seq (List.length pc) (List.length cs)) (pc ++ cs)
    = (Returned (map (fun xc => F (fst xc) (snd xc)) (combine xs cs)), pc ++ cs).
Proof.
  induction cs as [|c cs IH]; intros xs pc px Hp Hl.
  - destruct xs; reflexivity.
  - destruct xs as [|x xs]; [discriminate Hl|].
    cbn [List.length seq for_list combine map fst snd].
    rewrite (bind_returned _ _ _ (F x c)).
    + rewrite (bind_returned _ _ _
                 (map (fun xc => F (fst xc) (snd xc)) (combine xs cs))).
      * reflexivity.
      * rewrite (snoc_app pc), (snoc_app px), <- (snoc_length pc c).
        apply IH; [rewrite !snoc_length; lia | simpl in Hl; lia].
    + rewrite (bind_returned _ _ _ x) by (rewrite <- Hp; apply item_middle).
      rewrite (bind_returned _ _ _ c) by apply cloud_at_middle.
      reflexivity.
Qed.

Lemma for_loop_reads :
  forall (cs : list InvestmentCloud) (xs : list Pulp.LpVariable)
         (pc : list InvestmentCloud) (px : list Pulp.LpVariable)
         (model : Pulp.LpProblem),
    List.length px = List.length pc ->
    List.length xs = List.length cs ->
    for_loop (fun model i =>
                c <- cloud_at i ;;
                x <- item (px ++ xs) i ;;
                let model := Pulp.add_constraint model (Pulp.var_ge x (minimum c)) in
                c <- cloud_at i ;;
                x <- item (px ++ xs) i ;;
                ret (Pulp.add_constraint model (Pulp.var_le x (maximum c))))
             (seq (List.length pc) (List.length cs)) model (pc ++ cs)
    = (Returned (fold_left add_bounds (combine xs cs) model), pc ++ cs).
Proof.
  induction cs as [|c cs IH]; intros xs pc px model Hp Hl.
  - destruct xs; reflexivity.
  - destruct xs as [|x xs]; [discriminate Hl|].
    cbn [List.length seq for_loop combine fold_left].
    rewrite (bind_returned _ _ _ (add_bounds model (x, c))).
    + rewrite (snoc_app pc), (snoc_app px), <- (snoc_length pc c).
      apply IH; [rewrite !snoc_length; lia | simpl in Hl; lia].
    + rewrite (bind_returned _ _ _ c) by apply cloud_at_middle.
      rewrite (bind_returned _ _ _ x) by (rewrite <- Hp; apply item_middle).
      cbv zeta.
      rewrite (bind_returned _ _ _ c) by apply cloud_at_middle.
      rewrite (bind_returned _ _ _ x) by (rewrite <- Hp; apply item_middle).
      reflexivity.
Qed.

Lemma add_bounds_fold (l : list (Pulp.LpVariable * InvestmentCloud)) :
  forall model : Pulp.LpProblem,
    fold_left add_bounds l model =
    {| Pulp.problem_name := Pulp.problem_name model;
       Pulp.sense := Pulp.sense model;
       Pulp.objective := Pulp.objective model;
       Pulp.constraints :=
         Pulp.constraints model ++
         flat_map (fun xc => [Pulp.var_ge (fst xc) (minimum (snd xc));
                              Pulp.var_le (fst xc) (maximum (snd xc))]) l |}.
Proof.
  induction l as [|xc l IH]; intros model; simpl.
  - rewrite app_nil_r. now destruct model.
  - rewrite IH. simpl. now rewrite <- !app_assoc.
Qed.

(** The function up to the end of its second loop: it has read the store
    and built [lp_bounds]. *)
Lemma calculate_optimal_asset_dist_steps (solve : Pulp.solver) (h : store) :
  calculate_optimal_asset_dist solve h =
  (model <- lift (Pulp.iadd (lp_bounds h) (Pulp.sum_equals (new_variables 0 h) 1)) ;;
   solved <- lift (solve model) ;;
   let (status, value) := solved in
   if negb (String.eqb (Pulp.LpStatus status) "Optimal")
   then raise NonFeasibleSolutionError
   else ret (map (fun x => {| name := Pulp.name x;
                              proportion := value (Pulp.var_id x) |})
                 (new_variables 0 h))) h.
Proof.
  unfold calculate_optimal_asset_dist.
  rewrite (bind_returned _ _ _ h) by reflexivity.
  rewrite (bind_returned _ _ _ (List.length h)) by reflexivity.
  rewrite (bind_returned _ _ _
             (map (fun xc => Pulp.var_mul (fst xc) (expected_return (snd xc)))
                  (combine (new_variables 0 h) h))).
  2: { apply (for_list_reads (fun x c => Pulp.var_mul x (expected_return c))
                h (new_variables 0 h) [] []);
       [reflexivity | apply new_variables_length]. }
  rewrite (bind_returned _ _ _ (List.length h)) by reflexivity.
  erewrite bind_returned.
  2: { apply (for_loop_reads h (new_variables 0 h) [] []);
       [reflexivity | apply new_variables_length]. }
  rewrite add_bounds_fold. reflexivity.
Qed.

(** On a list that is not empty the function reads the store, never writes
    it, and its result is [allocation] of the clouds it found there. *)
Lemma calculate_optimal_asset_dist_run (solve : Pulp.solver) (h : store) :
  h <> [] ->
  calculate_optimal_asset_dist solve h = (allocation solve h, h).
Proof.
  intros Hne. rewrite calculate_optimal_asset_dist_steps.
  destruct h as [|c h]; [contradiction|].
  unfold allocation, bind, lift.
  change (Pulp.iadd (lp_bounds (c :: h))
                    (Pulp.sum_equals (new_variables 0 (c :: h)) 1))
    with (Returned (lp_model (c :: h))).
  cbv iota beta.
  destruct (solve (lp_model (c :: h))) as [[status value] | e]; [|reflexivity].
  unfold results_of.
  destruct (negb _); reflexivity.
Qed.

(** On the empty list the function raises [TypeError] before it calls the
    solver. *)
Lemma calculate_optimal_asset_dist_empty (solve : Pulp.solver) :
  calculate_optimal_asset_dist solve [] = (Raised TypeError, []).
Proof. rewrite calculate_optimal_asset_dist_steps. reflexivity. Qed.

(** In both cases the store is left as it was. *)
Lemma calculate_optimal_asset_dist_store (solve : Pulp.solver) (h : store) :
  snd (calculate_optimal_asset_dist solve h) = h.
Proof.
  destruct h as [|c h].
  - now rewrite calculate_optimal_asset_dist_empty.
  - rewrite calculate_optimal_asset_dist_run by discriminate. reflexivity.
Qed.

(** ** Sums *)

(** ** Meaning of the expressions and of the problem *)

Lemma eval_expr_terms (v : Pulp.valuation) (ts : list (Pulp.LpVariable * Q)) (k : Q) :
  Pulp.eval_expr v {| Pulp.terms := ts; Pulp.constant := k |}
  == Qsum (map (fun t => snd t * v (Pulp.var_id (fst t))) ts) + k.
Proof.
  unfold Pulp.eval_expr. simpl.
  induction ts as [|t ts IH]; simpl.
  - lra.
  - rewrite IH. lra.
Qed.

Lemma py_sum_fold (es : list Pulp.LpAffineExpression) :
  forall acc : Pulp.LpAffineExpression,
    fold_left Pulp.expr_add es acc =
    {| Pulp.terms := Pulp.terms acc ++ List.concat (map Pulp.terms es);
       Pulp.constant := fold_left Qplus (map Pulp.constant es) (Pulp.constant acc) |}.
Proof.
  induction es as [|e es IH]; intros acc; simpl.
  - rewrite app_nil_r. now destruct acc.
  - rewrite IH. simpl. now rewrite <- app_assoc.
Qed.

(** The sum of single-variable expressions with constant [0]. *)
Lemma py_sum_single {A} (f : A -> Pulp.LpVariable) (g : A -> Q) (l : list A) :
  Pulp.py_sum (map (fun a => Pulp.var_mul (f a) (g a)) l) =
  {| Pulp.terms := map (fun a => (f a, g a)) l;
     Pulp.constant := fold_left Qplus (map (fun _ => 0) l) 0 |}.
Proof.
  unfold Pulp.py_sum. rewrite py_sum_fold. simpl. f_equal.
  - induction l as [|a l IH]; simpl; [reflexivity | now rewrite IH].
  - now rewrite map_map.
Qed.

Lemma fold_zeros {A} (l : list A) (q : Q) :
  fold_left Qplus (map (fun _ => 0) l) q == q.
Proof.
  revert q. induction l as [|a l IH]; intros q; simpl.
  - reflexivity.
  - rewrite IH. lra.
Qed.

Lemma eval_py_sum_single {A} (v : Pulp.valuation) (f : A -> Pulp.LpVariable)
      (g : A -> Q) (l : list A) :
  Pulp.eval_expr v (Pulp.py_sum (map (fun a => Pulp.var_mul (f a) (g a)) l))
  == Qsum (map (fun a => g a * v (Pulp.var_id (f a))) l).
Proof.
  rewrite py_sum_single, eval_expr_terms, map_map. simpl.
  rewrite fold_zeros. lra.
Qed.

Lemma new_variables_values (v : Pulp.valuation) (cs : list InvestmentCloud) :
  forall k, map (fun x => v (Pulp.var_id x)) (new_variables k cs)
            = values_of v k (List.length cs).
Proof.
  unfold values_of.
  induction cs as [|c cs IH]; intros k; simpl; [reflexivity|].
  now rewrite IH.
Qed.

Lemma eval_expr_of_var (v : Pulp.valuation) (x : Pulp.LpVariable) :
  Pulp.eval_expr v (Pulp.expr_of_var x) == v (Pulp.var_id x).
Proof. unfold Pulp.eval_expr. simpl. lra. Qed.

Lemma bounds_constraints_iff (v : Pulp.valuation) (cs : list InvestmentCloud) :
  forall k,
    Forall (Pulp.constraint_holds v)
           (flat_map (fun xc => [Pulp.var_ge (fst xc) (minimum (snd xc));
                                 Pulp.var_le (fst xc) (maximum (snd xc))])
                     (combine (new_variables k cs) cs))
    <-> Forall2 (fun c q => minimum c <= q /\ q <= maximum c) cs
                (values_of v k (List.length cs)).
Proof.
  unfold values_of.
  induction cs as [|c cs IH]; intros k; simpl.
  - split; constructor.
  - split.
    + intros H. inversion H as [|? ? Hge H']; subst.
      inversion H' as [|? ? Hle H'']; subst.
      unfold Pulp.constraint_holds in Hge, Hle. simpl in Hge, Hle.
      rewrite eval_expr_of_var in Hge, Hle. simpl in Hge, Hle.
      constructor; [split; assumption|]. now apply IH.
    + intros H. inversion H as [|? ? ? ? [Hge Hle] H']; subst.
      constructor; [|constructor; [|now apply IH]];
        unfold Pulp.constraint_holds; simpl; rewrite eval_expr_of_var; simpl;
        assumption.
Qed.

Lemma Qsum_map_ext {A} (f g : A -> Q) (l : list A) :
  (forall a, f a == g a) -> Qsum (map f l) == Qsum (map g l).
Proof.
  intros E. induction l as [|a l IH]; simpl; [reflexivity|].
  rewrite IH, (E a). reflexivity.
Qed.

Lemma budget_sum_value (v : Pulp.valuation) (cs : list InvestmentCloud) (k : nat) :
  Pulp.eval_expr v (Pulp.py_sum (map Pulp.expr_of_var (new_variables k cs)))
  == Qsum (values_of v k (List.length cs)).
Proof.
  change (map Pulp.expr_of_var (new_variables k cs))
    with (map (fun x => Pulp.var_mul x ((fun _ => 1) x)) (new_variables k cs)).
  rewrite eval_py_sum_single.
  rewrite <- new_variables_values.
  apply Qsum_map_ext. intros x. lra.
Qed.

Lemma budget_sum_terms (cs : list InvestmentCloud) (k : nat) :
  Pulp.terms (Pulp.py_sum (map Pulp.expr_of_var (new_variables k cs)))
  = map (fun x => (x, 1)) (new_variables k cs).
Proof.
  change (map Pulp.expr_of_var (new_variables k cs))
    with (map (fun x => Pulp.var_mul ((fun x => x) x) ((fun _ => 1) x))
              (new_variables k cs)).
  now rewrite py_sum_single.
Qed.

Lemma variable_bounds_iff (v : Pulp.valuation) (cs : list InvestmentCloud) :
  forall k,
    Forall (Pulp.within_bounds v) (new_variables k cs)
    <-> Forall (fun q => 0 <= q) (values_of v k (List.length cs)).
Proof.
  unfold values_of.
  induction cs as [|c cs IH]; intros k; simpl.
  - split; constructor.
  - split; intros H; inversion H as [|? ? H1 H2]; subst; constructor.
    + now destruct H1.
    + now apply IH.
    + split; simpl; [assumption | exact I].
    + now apply IH.
Qed.

Lemma problem_variables_In (cs : list InvestmentCloud) (x : Pulp.LpVariable) :
  In x (Pulp.problem_variables (lp_model cs)) <-> In x (new_variables 0 cs).
Proof.
  unfold Pulp.problem_variables, lp_model. simpl.
  rewrite map_app, in_app_iff, flat_map_app, map_app, in_app_iff. simpl.
  rewrite app_nil_r, budget_sum_terms, map_map. simpl. rewrite map_id.
  rewrite (py_sum_single fst (fun xc => expected_return (snd xc))). simpl.
  rewrite map_map. simpl.
  split; [|tauto].
  intros [H | [H | H]]; [| |exact H].
  - apply in_map_iff in H. destruct H as ([y c] & <- & Hin).
    now apply in_combine_l in Hin.
  - apply in_map_iff in H. destruct H as ([y q] & <- & Hin).
    apply in_flat_map in Hin. destruct Hin as (con & Hcon & Hy).
    apply in_flat_map in Hcon. destruct Hcon as ([z c] & Hin & Hcon).
    apply in_combine_l in Hin. simpl in Hcon.
    destruct Hcon as [<- | [<- | []]]; simpl in Hy;
      destruct Hy as [Hy | []]; inversion Hy; subst; exact Hin.
Qed.

Lemma in_box_split (cs : list InvestmentCloud) (qs : list Q) :
  in_box cs qs <->
  Forall2 (fun c q => minimum c <= q /\ q <= maximum c) cs qs /\
  Forall (fun q => 0 <= q) qs.
Proof.
  unfold in_box. split.
  - induction 1 as [|c q cs qs (H0 & H1 & H2) _ [IH1 IH2]]; split; constructor;
      tauto.
  - intros [H2 H]. induction H2 as [|c q cs qs [H1 H3] _ IH]; constructor.
    + inversion H; subst. tauto.
    + apply IH. now inversion H.
Qed.

(** A valuation is feasible for the problem of [cs] exactly when the values
    of the variables lie in the box of the clouds and add up to [1]. *)
Lemma feasible_lp_model (cs : list InvestmentCloud) (v : Pulp.valuation) :
  Pulp.feasible (lp_model cs) v <->
  in_box cs (values_of v 0 (List.length cs)) /\
  Qsum (values_of v 0 (List.length cs)) == 1.
Proof.
  unfold Pulp.feasible.
  assert (Hv : Forall (Pulp.within_bounds v) (Pulp.problem_variables (lp_model cs))
               <-> Forall (fun q => 0 <= q) (values_of v 0 (List.length cs))).
  { rewrite <- variable_bounds_iff. rewrite !Forall_forall.
    split; intros H x Hx; apply H; now apply problem_variables_In. }
  rewrite Hv. clear Hv.
  unfold lp_model. simpl. rewrite Forall_app, bounds_constraints_iff.
  rewrite in_box_split.
  assert (Hb : Forall (Pulp.constraint_holds v)
                 [Pulp.expr_eq (Pulp.py_sum (map Pulp.expr_of_var (new_variables 0 cs))) 1]
               <-> Qsum (values_of v 0 (List.length cs)) == 1).
  { pose proof (budget_sum_value v cs 0) as E. split.
    - intros H. inversion H as [|? ? H1 _]; subst.
      unfold Pulp.constraint_holds in H1. simpl in H1. lra.
    - intros H. constructor; [|constructor].
      unfold Pulp.constraint_holds. simpl. lra. }
  rewrite Hb. tauto.
Qed.

(** The objective is the total expected return. *)
Lemma objective_lp_model (cs : list InvestmentCloud) (v : Pulp.valuation) :
  Pulp.objective_value (lp_model cs) v
  == Qsum (map (fun cq => expected_return (fst cq) * snd cq)
               (combine cs (values_of v 0 (List.length cs)))).
Proof.
  unfold Pulp.objective_value, lp_model. simpl.
  rewrite (eval_py_sum_single v fst (fun xc => expected_return (snd xc))).
  unfold values_of. generalize 0%nat.
  induction cs as [|c cs IH]; intros k; simpl; [reflexivity|].
  rewrite IH. reflexivity.
Qed.

(** ** Feasible points and bounds on the objective *)

Lemma values_of_valuation_shift (qs pre : list Q) :
  values_of (valuation_of (pre ++ qs)) (List.length pre) (List.length qs) = qs.
Proof.
  unfold values_of, valuation_of. revert pre.
  induction qs as [|q qs IH]; intros pre; simpl; [reflexivity|].
  rewrite app_nth2 by lia. rewrite Nat.sub_diag. simpl. f_equal.
  rewrite snoc_app, <- (snoc_length pre q). apply IH.
Qed.

Lemma values_of_valuation (qs : list Q) :
  values_of (valuation_of qs) 0 (List.length qs) = qs.
Proof. exact (values_of_valuation_shift qs []). Qed.

Lemma in_box_length (cs : list InvestmentCloud) (qs : list Q) :
  in_box cs qs -> List.length qs = List.length cs.
Proof. intros H. symmetry. exact (Forall2_length H). Qed.

(** A list in the box that sums to [1] is the value list of a feasible
    valuation. *)
Lemma feasible_of_list (cs : list InvestmentCloud) (qs : list Q) :
  in_box cs qs -> Qsum qs == 1 -> Pulp.feasible (lp_model cs) (valuation_of qs).
Proof.
  intros Hbox Hsum. apply feasible_lp_model.
  rewrite <- (in_box_length cs qs Hbox), values_of_valuation. now split.
Qed.

Lemma blend_sum (t : Q) (cs : list InvestmentCloud) :
  Qsum (map (blend t) cs) == sum_minimum cs + t * (sum_maximum cs - sum_minimum cs).
Proof.
  unfold sum_minimum, sum_maximum.
  induction cs as [|c cs IH]; simpl.
  - lra.
  - rewrite IH. unfold blend. lra.
Qed.

Lemma blend_in_box (t : Q) (cs : list InvestmentCloud) :
  0 <= t -> t <= 1 -> Forall bounds_ok cs -> in_box cs (map (blend t) cs).
Proof.
  intros Ht0 Ht1 Hok. unfold in_box.
  induction Hok as [|c cs (H0 & H1 & H2) _ IH]; simpl; constructor; [|exact IH].
  unfold blend.
  assert (Hd : 0 <= t * (maximum c - minimum c))
    by (apply Qmult_le_0_compat; lra).
  assert (He : 0 <= (1 - t) * (maximum c - minimum c))
    by (apply Qmult_le_0_compat; lra).
  lra.
Qed.

Lemma blend_share_spec (cs : list InvestmentCloud) :
  sum_minimum cs <= 1 -> 1 <= sum_maximum cs ->
  0 <= blend_share cs /\ blend_share cs <= 1 /\
  sum_minimum cs + blend_share cs * (sum_maximum cs - sum_minimum cs) == 1.
Proof.
  intros Hmin Hmax. unfold blend_share.
  destruct (Qeq_bool (sum_maximum cs) (sum_minimum cs)) eqn:E.
  - apply Qeq_bool_iff in E. repeat split; lra.
  - apply Qeq_bool_neq in E.
    assert (Hpos : 0 < sum_maximum cs - sum_minimum cs).
    { destruct (Qlt_le_dec (sum_minimum cs) (sum_maximum cs)) as [Hlt | Hge];
        [lra | exfalso; apply E; lra]. }
    split; [|split].
    + apply Qle_shift_div_l; [exact Hpos | lra].
    + apply Qle_shift_div_r; [exact Hpos | lra].
    + field_simplify_eq; lra.
Qed.

(** With valid clouds and [sum_minimum <= 1 <= sum_maximum] the box holds a
    list that sums to [1]. *)
Lemma box_has_point (cs : list InvestmentCloud) :
  Forall bounds_ok cs -> sum_minimum cs <= 1 -> 1 <= sum_maximum cs ->
  exists qs, in_box cs qs /\ Qsum qs == 1.
Proof.
  intros Hok Hmin Hmax.
  destruct (blend_share_spec cs Hmin Hmax) as (H0 & H1 & Hs).
  exists (map (blend (blend_share cs)) cs). split.
  - now apply blend_in_box.
  - rewrite blend_sum. exact Hs.
Qed.


(** On the box the total return is at most [sum |return_i| * maximum_i]. *)
Lemma in_box_return_bound (cs : list InvestmentCloud) (qs : list Q) :
  in_box cs qs ->
  Qsum (map (fun cq => expected_return (fst cq) * snd cq) (combine cs qs))
  <= Qsum (map (fun c => Qabs (expected_return c) * maximum c) cs).
Proof.
  unfold in_box.
  induction 1 as [|c q cs qs (H0 & H1 & H2) _ IH]; simpl; [lra|].
  assert (Ha : expected_return c * q <= Qabs (expected_return c) * q)
    by (apply Qmult_le_compat_r; [apply Qle_Qabs | exact H0]).
  assert (Hb : Qabs (expected_return c) * q <= Qabs (expected_return c) * maximum c).
  { rewrite (Qmult_comm _ q), (Qmult_comm _ (maximum c)).
    apply Qmult_le_compat_r; [exact H2 | apply Qabs_nonneg]. }
  lra.
Qed.

(** ** What the function does with the answer of the solver *)

Lemma LpStatus_Optimal (st : Pulp.LpStatusCode) :
  String.eqb (Pulp.LpStatus st) "Optimal" = true <-> st = Pulp.LpStatusOptimal.
Proof.
  destruct st; simpl; split; intros H; try reflexivity; discriminate H.
Qed.

(** A solver that raises makes the call raise the same. *)
Lemma allocation_raised (solve : Pulp.solver) (cs : list InvestmentCloud) (e : exn) :
  solve (lp_model cs) = Raised e -> allocation solve cs = Raised e.
Proof. intros E. unfold allocation. now rewrite E. Qed.

(** A solver that returns makes the call return the results, or raise
    [NonFeasibleSolutionError], according to the status. *)
Lemma allocation_cases (solve : Pulp.solver) (cs : list InvestmentCloud) :
  (exists a, solve (lp_model cs) = Returned a) ->
  (fst (Pulp.answered solve (lp_model cs)) = Pulp.LpStatusOptimal /\
   allocation solve cs = Returned (results_of (snd (Pulp.answered solve (lp_model cs))) cs))
  \/
  (fst (Pulp.answered solve (lp_model cs)) <> Pulp.LpStatusOptimal /\
   allocation solve cs = Raised NonFeasibleSolutionError).
Proof.
  intros [[status value] E]. unfold allocation, Pulp.answered. rewrite E. simpl.
  destruct (String.eqb (Pulp.LpStatus status) "Optimal") eqn:Es; simpl.
  - left. split; [now apply LpStatus_Optimal | reflexivity].
  - right. split; [|reflexivity].
    intros H. apply LpStatus_Optimal in H. congruence.
Qed.

(** Every solver either raised or returned. *)
Lemma solver_cases (solve : Pulp.solver) (p : Pulp.LpProblem) :
  (exists e, solve p = Raised e) \/ (exists a, solve p = Returned a).
Proof. destruct (solve p) as [a | e]; [right | left]; eexists; reflexivity. Qed.

Lemma results_of_names (value : Pulp.valuation) (cs : list InvestmentCloud) :
  map name (results_of value cs) = map (fun c => Pulp.kept_name (asset c)) cs.
Proof.
  unfold results_of. rewrite map_map. simpl. generalize 0%nat.
  induction cs as [|c cs IH]; intros k; simpl; [reflexivity|].
  now rewrite IH.
Qed.


Lemma results_of_proportions (value : Pulp.valuation) (cs : list InvestmentCloud) :
  map proportion (results_of value cs) = values_of value 0 (List.length cs).
Proof.
  unfold results_of. rewrite map_map. simpl.
  apply (new_variables_values value cs 0).
Qed.


(** An exact solver answers [Optimal] on a feasible maximisation problem
    whose objective is bounded above. *)
Lemma exact_feasible_bounded (solve : Pulp.solver) (p : Pulp.LpProblem) (M : Q) :
  Pulp.exact_on solve p ->
  Pulp.sense p = Pulp.LpMaximize ->
  (exists w, Pulp.feasible p w) ->
  (forall w, Pulp.feasible p w -> Pulp.objective_value p w <= M) ->
  fst (Pulp.answered solve p) = Pulp.LpStatusOptimal.
Proof.
  intros Hex Hsense [w Hw] Hbound.
  destruct (Pulp.status_definite solve p Hex) as [H | [H | H]]; [exact H | |].
  - exfalso. exact (Pulp.infeasible_sound solve p Hex H w Hw).
  - exfalso. destruct (Pulp.unbounded_sound solve p Hex H M) as (u & Hu & Hgt).
    rewrite Hsense in Hgt. specialize (Hbound u Hu). lra.
Qed.

Lemma results_within (cs : list InvestmentCloud) (value : Pulp.valuation) :
  in_box cs (values_of value 0 (List.length cs)) ->
  Forall2 within cs (results_of value cs).
Proof.
  rewrite <- results_of_proportions.
  generalize (results_of value cs). unfold in_box, within.
  intros res. revert res.
  induction cs as [|c cs IH]; intros res H.
  - destruct res; [constructor | inversion H].
  - destruct res as [|r res]; [inversion H|].
    simpl in H. inversion H as [|? ? ? ? (H0 & H1 & H2) H']; subst.
    constructor; [split; assumption | now apply IH].
Qed.

(** On a feasible problem of valid clouds an exact solver answers
    [Optimal]. *)
Lemma exact_answers_optimal (solve : Pulp.solver) (cs : list InvestmentCloud) :
  Forall bounds_ok cs -> sum_minimum cs <= 1 -> 1 <= sum_maximum cs ->
  Pulp.exact_on solve (lp_model cs) ->
  fst (Pulp.answered solve (lp_model cs)) = Pulp.LpStatusOptimal.
Proof.
  intros Hok Hmin Hmax Hex.
  apply (exact_feasible_bounded solve (lp_model cs)
           (Qsum (map (fun c => Qabs (expected_return c) * maximum c) cs)) Hex).
  - reflexivity.
  - destruct (box_has_point cs Hok Hmin Hmax) as (qs & Hbox & Hsum).
    exists (valuation_of qs). now apply feasible_of_list.
  - intros w Hw. apply feasible_lp_model in Hw. destruct Hw as [Hbox _].
    rewrite objective_lp_model. now apply in_box_return_bound.
Qed.


(** What the call does on a list that is not empty, by what the solver
    did. *)
Lemma allocation_of_answer (solve : Pulp.solver) (cs : list InvestmentCloud)
      (st : Pulp.LpStatusCode) (v : Pulp.valuation) :
  solve (lp_model cs) = Returned (st, v) ->
  (Pulp.LpStatus st = "Optimal"%string /\ allocation solve cs = Returned (results_of v cs))
  \/
  (Pulp.LpStatus st <> "Optimal"%string /\
   allocation solve cs = Raised NonFeasibleSolutionError).
Proof.
  intros E. unfold allocation. rewrite E.
  destruct (String.eqb (Pulp.LpStatus st) "Optimal") eqn:Es; simpl.
  - left. split; [now apply String.eqb_eq | reflexivity].
  - right. split; [now apply String.eqb_neq | reflexivity].
Qed.

(** ** The optimizer *)





Lemma returned_optimal (solve : Pulp.solver) (cs : list InvestmentCloud)
      (res : list AssetDist) :
  allocation solve cs = Returned res ->
  fst (Pulp.answered solve (lp_model cs)) = Pulp.LpStatusOptimal /\
  res = results_of (snd (Pulp.answered solve (lp_model cs))) cs.
Proof.
  destruct (solver_cases solve (lp_model cs)) as [[e E] | Hret].
  - rewrite (allocation_raised solve cs e E). discriminate.
  - destruct (allocation_cases solve cs Hret) as [[Hopt ->] | [_ ->]]; [|discriminate].
    intros E. inversion E. now split.
Qed.




(** C8.  Whatever the solver answers and whether the call returns or
    raises, the caller's list is afterwards what it was: the same clouds
    with the same four attributes, as many and in the same order. *)
Theorem solve_leaves_clouds_unchanged :
  forall (solve : Pulp.solver) (h : store),
    snd (calculate_optimal_asset_dist solve h) = h /\
    List.length (snd (calculate_optimal_asset_dist solve h)) = List.length h /\
    forall i, nth_error (snd (calculate_optimal_asset_dist solve h)) i = nth_error h i.
Proof.
  intros solve h. rewrite calculate_optimal_asset_dist_store.
  repeat split.
Qed.

(** ** The example of [render] *)

Ltac q_closed := unfold Qle, Qlt, Qeq; simpl; lia.

Lemma example_clouds_ok : Forall bounds_ok example_clouds.
Proof. repeat constructor; q_closed. Qed.

Lemma example_sums : sum_minimum example_clouds <= 1 /\ 1 <= sum_maximum example_clouds.
Proof. split; q_closed. Qed.

Lemma example_optimum_in_box :
  in_box example_clouds example_optimum /\ Qsum example_optimum == 1.
Proof. split; [repeat constructor; q_closed | q_closed]. Qed.

(** Every list in the box of the example that sums to [1] returns at most
    [9/40], and only [example_optimum] returns that much. *)
Lemma example_optimum_best (a b c d : Q) :
  in_box example_clouds [a; b; c; d] -> a + b + c + d == 1 ->
  let total := (15 # 100) * a + (2 # 10) * b + (3 # 10) * c + (1 # 10) * d in
  total <= 9 # 40 /\
  (9 # 40 <= total -> a == 1 # 10 /\ b == 1 # 5 /\ c == 1 # 2 /\ d == 1 # 5).
Proof.
  intros Hbox Hsum total. subst total.
  inversion Hbox as [|? ? ? ? (Ha0 & Ha1 & Ha2) Hbox1]; subst.
  inversion Hbox1 as [|? ? ? ? (Hb0 & Hb1 & Hb2) Hbox2]; subst.
  inversion Hbox2 as [|? ? ? ? (Hc0 & Hc1 & Hc2) Hbox3]; subst.
  inversion Hbox3 as [|? ? ? ? (Hd0 & Hd1 & Hd2) _]; subst.
  simpl in *. split; [lra|]. intros Hbest. repeat split; lra.
Qed.

(** C6.  On the four clouds of the example an exact solver makes the call
    return four results that sum to [1]: the asset with the highest return
    gets its maximum [0.50], the one with the lowest return its minimum
    [0.20], the other two [0.10] and [0.20]; the total expected return
    [0.225] is the largest that any allocation within the bounds reaches. *)
Theorem example_allocation :
  forall solve : Pulp.solver,
    Pulp.exact_on solve (lp_model example_clouds) ->
    exists a b c d : Q,
      fst (calculate_optimal_asset_dist solve example_clouds)
      = Returned [ {| name := "A"; proportion := a |};
                   {| name := "B"; proportion := b |};
                   {| name := "C"; proportion := c |};
                   {| name := "D"; proportion := d |} ] /\
      a + b + c + d == 1 /\
      c == 50 # 100 /\ d == 20 # 100 /\ a == 10 # 100 /\ b == 20 # 100 /\
      total_return example_clouds
        [ {| name := "A"; proportion := a |}; {| name := "B"; proportion := b |};
          {| name := "C"; proportion := c |}; {| name := "D"; proportion := d |} ]
        == 225 # 1000 /\
      forall qs, in_box example_clouds qs -> Qsum qs == 1 ->
        Qsum (map (fun cq => expected_return (fst cq) * snd cq)
                  (combine example_clouds qs)) <= 225 # 1000.
Proof.
  intros solve Hex.
  pose proof (exact_answers_optimal solve example_clouds example_clouds_ok
                (proj1 example_sums) (proj2 example_sums) Hex) as Hopt.
  destruct (Pulp.optimal_sound solve _ Hex Hopt) as [Hfeas Hbest].
  destruct example_optimum_in_box as [Hbox Hone].
  specialize (Hbest (valuation_of example_optimum)
                    (feasible_of_list _ _ Hbox Hone)).
  unfold Pulp.no_worse in Hbest. simpl in Hbest.
  rewrite !objective_lp_model in Hbest.
  apply feasible_lp_model in Hfeas. destruct Hfeas as [Hvbox Hvsum].
  rewrite calculate_optimal_asset_dist_run by discriminate. simpl.
  destruct (allocation_cases solve example_clouds (Pulp.solver_returns _ _ Hex))
    as [[_ ->] | [Hno _]]; [|contradiction].
  set (value := snd (Pulp.answered solve (lp_model example_clouds))) in *.
  unfold values_of, valuation_of in *. simpl in *.
  exists (value 0%nat), (value 1%nat), (value 2%nat), (value 3%nat).
  split; [reflexivity|].
  assert (Hs : value 0%nat + value 1%nat + value 2%nat + value 3%nat == 1) by lra.
  destruct (example_optimum_best _ _ _ _ Hvbox Hs) as [Hle Heq].
  cbv zeta in Hle, Heq.
  assert (Hq : 225 # 1000 == 9 # 40) by reflexivity.
  assert (Hge : 9 # 40 <=
                (15 # 100) * value 0%nat + (2 # 10) * value 1%nat +
                (3 # 10) * value 2%nat + (1 # 10) * value 3%nat) by lra.
  destruct (Heq Hge) as (Ea & Eb & Ec & Ed).
  split; [exact Hs|].
  split; [lra|]. split; [lra|]. split; [lra|]. split; [lra|].
  split; [unfold total_return; simpl; lra|].
  intros qs Hqs Hsum.
  pose proof (in_box_length _ _ Hqs) as Hlen.
  destruct qs as [|q0 [|q1 [|q2 [|q3 [|q4 qs]]]]]; try discriminate Hlen.
  simpl in Hsum.
  assert (Hs' : q0 + q1 + q2 + q3 == 1) by lra.
  destruct (example_optimum_best _ _ _ _ Hqs Hs') as [Hle' _].
  cbv zeta in Hle'. simpl. lra.
Qed.

(** ** The greedy filling is optimal *)

Lemma insert_by_gain_perm (a : Reference.item) (l : list Reference.item) :
  Permutation (Reference.insert_by_gain a l) (a :: l).
Proof.
  induction l as [|b l IH]; simpl; [reflexivity|].
  destruct (Qle_bool (Reference.gain b) (Reference.gain a)); [reflexivity|].
  rewrite IH. apply perm_swap.
Qed.

Lemma sort_by_gain_perm (l : list Reference.item) :
  Permutation (Reference.sort_by_gain l) l.
Proof.
  induction l as [|a l IH]; simpl; [reflexivity|].
  rewrite insert_by_gain_perm. now constructor.
Qed.

Lemma insert_by_gain_descending (a : Reference.item) (l : list Reference.item) :
  descending l -> descending (Reference.insert_by_gain a l).
Proof.
  unfold descending.
  induction 1 as [|b l Hl IH Hb]; simpl.
  - repeat constructor.
  - destruct (Qle_bool (Reference.gain b) (Reference.gain a)) eqn:E.
    + apply Qle_bool_iff in E. constructor; [now constructor|].
      constructor; [exact E|].
      apply Forall_forall. intros c Hc.
      rewrite Forall_forall in Hb. specialize (Hb c Hc). simpl in Hb. lra.
    + assert (Hlt : Reference.gain a <= Reference.gain b).
      { destruct (Qlt_le_dec (Reference.gain a) (Reference.gain b)) as [H | H];
          [lra|]. apply Qle_bool_iff in H. congruence. }
      constructor; [exact IH|].
      apply Forall_forall. intros c Hc.
      apply (Permutation_in _ (insert_by_gain_perm a l)) in Hc.
      destruct Hc as [<- | Hc]; [exact Hlt|].
      rewrite Forall_forall in Hb. now apply Hb.
Qed.

Lemma sort_by_gain_descending (l : list Reference.item) :
  descending (Reference.sort_by_gain l).
Proof.
  induction l as [|a l IH]; simpl.
  - constructor.
  - now apply insert_by_gain_descending.
Qed.

Lemma fits_sum (l : list Reference.item) (qs : list Q) :
  Forall2 fits l qs ->
  Qsum (map Reference.lower l) <= Qsum qs /\ Qsum qs <= Qsum (map Reference.upper l).
Proof.
  induction 1 as [|a q l qs [H1 H2] _ [IH1 IH2]]; simpl; split; lra.
Qed.

Lemma capacity_sums (l : list Reference.item) :
  capacity l == Qsum (map Reference.upper l) - Qsum (map Reference.lower l).
Proof.
  unfold capacity. induction l as [|a l IH]; simpl; [lra|].
  rewrite IH. lra.
Qed.

(** Every item ends within its bounds. *)
Lemma fill_fits (l : list Reference.item) :
  Forall (fun a => Reference.lower a <= Reference.upper a) l ->
  forall rest, 0 <= rest ->
    Forall2 fits l (map snd (Reference.fill rest l)).
Proof.
  induction 1 as [|a l Ha _ IH]; intros rest Hrest;
    cbn [Reference.fill map snd]; constructor.
  - unfold fits.
    pose proof (Qred_correct
                  (Reference.lower a + Qmin (Reference.upper a - Reference.lower a) rest))
      as Er.
    destruct (Q.min_spec (Reference.upper a - Reference.lower a) rest) as [[H E] | [H E]];
      lra.
  - apply IH.
    destruct (Q.min_spec (Reference.upper a - Reference.lower a) rest) as [[H E] | [H E]];
      lra.
Qed.

Lemma capacity_nonneg (l : list Reference.item) :
  Forall (fun a => Reference.lower a <= Reference.upper a) l -> 0 <= capacity l.
Proof.
  unfold capacity. induction 1 as [|a l Ha _ IH]; cbn [map Qsum]; lra.
Qed.

(** What is handed out is what there was, if the items can take it. *)
Lemma fill_sum (l : list Reference.item) :
  Forall (fun a => Reference.lower a <= Reference.upper a) l ->
  forall rest, 0 <= rest -> rest <= capacity l ->
    Qsum (map snd (Reference.fill rest l)) == Qsum (map Reference.lower l) + rest.
Proof.
  induction 1 as [|a l Ha Hl IH]; intros rest Hrest Hcap;
    unfold capacity in Hcap; cbn [Reference.fill map snd Qsum] in *.
  - lra.
  - pose proof (Qred_correct
                  (Reference.lower a + Qmin (Reference.upper a - Reference.lower a) rest))
      as Er.
    pose proof (capacity_nonneg l Hl) as Hc. unfold capacity in Hc.
    destruct (Q.min_spec (Reference.upper a - Reference.lower a) rest) as [[H E] | [H E]];
      rewrite IH; unfold capacity; lra.
Qed.

(** No values within the bounds yield more than the filling, up to what
    their larger sum [extra] can earn at the best gain [G]. *)
Lemma fill_best (l : list Reference.item) :
  descending l ->
  Forall (fun a => Reference.lower a <= Reference.upper a) l ->
  forall (rest : Q) (ws : list Q) (G extra : Q),
    0 <= rest ->
    Forall2 fits l ws ->
    Forall (fun a => Reference.gain a <= G) l ->
    Qsum ws == Qsum (map Reference.lower l) + rest + extra ->
    0 <= extra ->
    yield l ws <= yield l (map snd (Reference.fill rest l)) + G * extra.
Proof.
  unfold descending, yield.
  induction 1 as [|a l Hl IH Hmax]; intros Hok rest ws G extra Hrest Hfit HG Hsum Hextra.
  - inversion Hfit; subst. cbn [Reference.fill map combine Qsum] in *.
    assert (H0 : G * extra == 0) by (assert (E : extra == 0) by lra; rewrite E; ring).
    lra.
  - inversion Hfit as [|? w ? ws' [Hw1 Hw2] Hfit']; subst.
    inversion Hok as [|? ? Ha Hok']; subst.
    inversion HG as [|? ? HaG _]; subst.
    cbn [Reference.fill map snd fst combine Qsum] in *.
    set (d := Qmin (Reference.upper a - Reference.lower a) rest) in *.
    pose proof (Qred_correct (Reference.lower a + d)) as Er.
    set (extra' := extra + (Reference.lower a + d) - w).
    destruct (fits_sum _ _ Hfit') as [Hlow _].
    assert (Hd : 0 <= d /\ d <= rest /\ d <= Reference.upper a - Reference.lower a /\
                 (d == rest \/ d == Reference.upper a - Reference.lower a)).
    { subst d.
      destruct (Q.min_spec (Reference.upper a - Reference.lower a) rest)
        as [[H E] | [H E]].
      - split; [lra|]. split; [lra|]. split; [lra|]. right. exact E.
      - split; [lra|]. split; [lra|]. split; [lra|]. left. exact E. }
    destruct Hd as (Hd0 & Hd1 & Hd2 & Hd3).
    assert (Hextra' : 0 <= extra') by (subst extra'; destruct Hd3; lra).
    assert (Hsum' : Qsum ws' == Qsum (map Reference.lower l) + (rest - d) + extra')
      by (subst extra'; lra).
    assert (HG' : Forall (fun b => Reference.gain b <= Reference.gain a) l) by exact Hmax.
    pose proof (IH Hok' (rest - d) ws' (Reference.gain a) extra'
                   ltac:(lra) Hfit' HG' Hsum' Hextra') as Hrec.
    assert (Hprod : Reference.gain a * extra <= G * extra)
      by (apply Qmult_le_compat_r; assumption).
    assert (Hexp : Reference.gain a * extra' ==
                   Reference.gain a * extra + Reference.gain a * (Reference.lower a + d)
                   - Reference.gain a * w) by (subst extra'; ring).
    assert (Hred : Reference.gain a * Qred (Reference.lower a + d) ==
                   Reference.gain a * (Reference.lower a + d))
      by (apply Qmult_comp; [reflexivity | exact Er]).
    lra.
Qed.

(** ** The reference solver reads the clouds off the problem *)

Lemma pick_app {A B} (f : A -> option B) (l1 l2 : list A) :
  Reference.pick f (l1 ++ l2) = Reference.pick f l1 ++ Reference.pick f l2.
Proof.
  induction l1 as [|a l1 IH]; simpl; [reflexivity|].
  destruct (f a); simpl; now rewrite IH.
Qed.

Lemma pick_flat_map {A B C} (f : B -> option C) (g : A -> list B) (l : list A) :
  Reference.pick f (flat_map g l) = flat_map (fun a => Reference.pick f (g a)) l.
Proof.
  induction l as [|a l IH]; simpl; [reflexivity|].
  now rewrite pick_app, IH.
Qed.

Lemma pick_map {A B C} (f : B -> option C) (g : A -> B) (l : list A) :
  Reference.pick f (map g l) = flat_map (fun a => Reference.pick f [g a]) l.
Proof.
  induction l as [|a l IH]; simpl; [reflexivity|].
  destruct (f (g a)); simpl; now rewrite IH.
Qed.

(** Among the variables made for [cs] from [j] on, only the one at
    distance [length pre] has the identity [j + length pre]. *)
Lemma select_outside {B} (F : InvestmentCloud -> list B) (i : nat) :
  forall (cs : list InvestmentCloud) (j : nat),
    (i < j \/ j + List.length cs <= i)%nat ->
    flat_map (fun xc => if Nat.eqb (Pulp.var_id (fst xc)) i then F (snd xc) else [])
             (combine (new_variables j cs) cs) = [].
Proof.
  induction cs as [|c cs IH]; intros j Hi; simpl; [reflexivity|].
  assert (E : Nat.eqb j i = false) by (apply Nat.eqb_neq; simpl in Hi; lia).
  rewrite E. simpl. apply IH. simpl in Hi. lia.
Qed.

Lemma select_at {B} (F : InvestmentCloud -> list B) :
  forall (pre : list InvestmentCloud) (j : nat) (c : InvestmentCloud)
         (post : list InvestmentCloud),
    flat_map (fun xc => if Nat.eqb (Pulp.var_id (fst xc)) (j + List.length pre)
                        then F (snd xc) else [])
             (combine (new_variables j (pre ++ c :: post)) (pre ++ c :: post))
    = F c.
Proof.
  induction pre as [|p pre IH]; intros j c post; simpl.
  - rewrite Nat.add_0_r, Nat.eqb_refl.
    rewrite (select_outside F j post (S j)) by lia. apply app_nil_r.
  - assert (E : Nat.eqb j (j + S (List.length pre)) = false)
      by (apply Nat.eqb_neq; lia).
    rewrite E. simpl.
    replace (j + S (List.length pre))%nat with (S j + List.length pre)%nat by lia.
    apply IH.
Qed.

Lemma bound_on_pair (s : Pulp.LpConstraintSense) (i : nat)
      (xc : Pulp.LpVariable * InvestmentCloud) :
  Reference.pick (Reference.bound_on s i)
                 [Pulp.var_ge (fst xc) (minimum (snd xc));
                  Pulp.var_le (fst xc) (maximum (snd xc))]
  = if Nat.eqb (Pulp.var_id (fst xc)) i
    then match s with
         | Pulp.LpConstraintGE => [minimum (snd xc)]
         | Pulp.LpConstraintLE => [maximum (snd xc)]
         | Pulp.LpConstraintEQ => []
         end
    else [].
Proof.
  unfold Reference.pick, Reference.bound_on, Reference.single_variable.
  cbn [Pulp.lhs Pulp.var_ge Pulp.var_le Pulp.expr_of_var Pulp.terms Pulp.constant
       Pulp.csense Pulp.rhs].
  change (Qeq_bool 1 1 && Qeq_bool 0 0) with true. cbv iota.
  destruct s; destruct (Nat.eqb (Pulp.var_id (fst xc)) i); reflexivity.
Qed.

Lemma bound_on_budget (s : Pulp.LpConstraintSense) (i : nat)
      (e : Pulp.LpAffineExpression) (k : Q) :
  Reference.bound_on s i (Pulp.expr_eq e k) = None.
Proof.
  unfold Reference.bound_on. cbn [Pulp.csense Pulp.expr_eq Pulp.lhs].
  destruct (Reference.single_variable e); destruct s; reflexivity.
Qed.

(** The bound of either sense that the problem puts on a variable. *)
Lemma pick_bound_lp_model (s : Pulp.LpConstraintSense)
      (pre : list InvestmentCloud) (c : InvestmentCloud) (post : list InvestmentCloud) :
  Reference.pick (Reference.bound_on s (List.length pre))
                 (Pulp.constraints (lp_model (pre ++ c :: post)))
  = match s with
    | Pulp.LpConstraintGE => [minimum c]
    | Pulp.LpConstraintLE => [maximum c]
    | Pulp.LpConstraintEQ => []
    end.
Proof.
  unfold lp_model. cbn [Pulp.constraints].
  rewrite pick_app, pick_flat_map.
  cbn [Reference.pick]. rewrite bound_on_budget, app_nil_r.
  rewrite (flat_map_ext _ _ (bound_on_pair s (List.length pre))).
  exact (select_at (fun c => match s with
                             | Pulp.LpConstraintGE => [minimum c]
                             | Pulp.LpConstraintLE => [maximum c]
                             | Pulp.LpConstraintEQ => []
                             end) pre 0 c post).
Qed.

Lemma coefficient_lp_model (pre : list InvestmentCloud) (c : InvestmentCloud)
      (post : list InvestmentCloud) :
  Reference.coefficient (Pulp.objective (lp_model (pre ++ c :: post))) (List.length pre)
  = expected_return c + 0.
Proof.
  unfold Reference.coefficient, lp_model. cbn [Pulp.objective].
  rewrite (py_sum_single fst (fun xc => expected_return (snd xc))).
  cbn [Pulp.terms]. rewrite pick_map.
  rewrite (flat_map_ext _
             (fun xc : Pulp.LpVariable * InvestmentCloud =>
                if Nat.eqb (Pulp.var_id (fst xc)) (List.length pre)
                then [expected_return (snd xc)] else [])).
  - pose proof (select_at (fun c => [expected_return c]) pre 0 c post) as E.
    cbn [Nat.add] in E. rewrite E. reflexivity.
  - intros xc. cbn [Reference.pick fst snd].
    destruct (Nat.eqb (Pulp.var_id (fst xc)) (List.length pre)); reflexivity.
Qed.

Lemma item_of_lp_model (pre : list InvestmentCloud) (c : InvestmentCloud)
      (post : list InvestmentCloud) :
  Reference.item_of (lp_model (pre ++ c :: post))
    {| Pulp.var_id := List.length pre; Pulp.name := Pulp.kept_name (asset c);
       Pulp.lowBound := Some 0; Pulp.upBound := None |}
  = Some {| Reference.item_id := List.length pre;
            Reference.lower := Qmax 0 (minimum c);
            Reference.upper := maximum c;
            Reference.gain := expected_return c + 0 |}.
Proof.
  unfold Reference.item_of.
  cbn [Pulp.var_id Pulp.lowBound Pulp.upBound Reference.opt_list].
  rewrite !pick_bound_lp_model, coefficient_lp_model. reflexivity.
Qed.

Lemma items_lp_model (post : list InvestmentCloud) :
  forall pre : list InvestmentCloud,
    Reference.all_some
      (map (Reference.item_of (lp_model (pre ++ post)))
           (new_variables (List.length pre) post))
    = Some (items_of (List.length pre) post).
Proof.
  induction post as [|c post IH]; intros pre; [reflexivity|].
  cbn [new_variables map Reference.all_some items_of].
  rewrite item_of_lp_model.
  rewrite (snoc_app pre c post), <- (snoc_length pre c), IH. reflexivity.
Qed.

Lemma is_budget_bounds (pairs : list (Pulp.LpVariable * InvestmentCloud)) :
  filter Reference.is_budget
         (flat_map (fun xc => [Pulp.var_ge (fst xc) (minimum (snd xc));
                               Pulp.var_le (fst xc) (maximum (snd xc))]) pairs) = [].
Proof.
  induction pairs as [|xc pairs IH]; [reflexivity|].
  cbn [flat_map app filter]. exact IH.
Qed.

Lemma is_bound_bounds (pairs : list (Pulp.LpVariable * InvestmentCloud)) :
  forallb (fun c => Reference.is_budget c || Reference.is_bound c)
          (flat_map (fun xc => [Pulp.var_ge (fst xc) (minimum (snd xc));
                                Pulp.var_le (fst xc) (maximum (snd xc))]) pairs) = true.
Proof.
  induction pairs as [|xc pairs IH]; [reflexivity|].
  cbn [flat_map app forallb]. rewrite IH. reflexivity.
Qed.

Lemma is_budget_sum (cs : list InvestmentCloud) (k : nat) (total : Q) :
  Reference.is_budget
    (Pulp.expr_eq (Pulp.py_sum (map Pulp.expr_of_var (new_variables k cs))) total) = true.
Proof.
  unfold Reference.is_budget. cbn [Pulp.csense Pulp.expr_eq Pulp.lhs].
  rewrite budget_sum_terms.
  change (map Pulp.expr_of_var (new_variables k cs))
    with (map (fun x => Pulp.var_mul ((fun x => x) x) ((fun _ => 1) x))
              (new_variables k cs)).
  rewrite py_sum_single. cbn [Pulp.constant].
  apply andb_true_iff. split.
  - apply Qeq_bool_iff. apply fold_zeros.
  - apply forallb_forall. intros t Ht.
    apply in_map_iff in Ht. destruct Ht as (x & <- & _). reflexivity.
Qed.

Lemma decode_lp_model (cs : list InvestmentCloud) :
  Reference.decode (lp_model cs) = Some (1, items_of 0 cs).
Proof.
  unfold Reference.decode.
  assert (Hf : filter Reference.is_budget (Pulp.constraints (lp_model cs)) =
               [Pulp.expr_eq (Pulp.py_sum (map Pulp.expr_of_var (new_variables 0 cs))) 1]).
  { unfold lp_model. cbn [Pulp.constraints].
    rewrite filter_app, is_budget_bounds. cbn [filter app].
    now rewrite is_budget_sum. }
  rewrite Hf.
  assert (Hb : forallb (fun c => Reference.is_budget c || Reference.is_bound c)
                       (Pulp.constraints (lp_model cs)) = true).
  { unfold lp_model. cbn [Pulp.constraints].
    rewrite forallb_app, is_bound_bounds. cbn [forallb].
    now rewrite is_budget_sum. }
  rewrite Hb. cbn [Pulp.lhs Pulp.expr_eq Pulp.rhs].
  rewrite budget_sum_terms, map_map. cbn [fst].
  pose proof (items_lp_model cs []) as E. cbn [app List.length] in E.
  change (fun x : Pulp.LpVariable => Reference.item_of (lp_model cs) x)
    with (Reference.item_of (lp_model cs)).
  rewrite E. reflexivity.
Qed.

(** ** The problem in terms of items *)

Lemma Qsum_perm (l l' : list Q) : Permutation l l' -> Qsum l == Qsum l'.
Proof.
  induction 1 as [| x l l' _ IH | x y l | l l' l'' _ IH1 _ IH2]; simpl; lra.
Qed.

Lemma Qsum_map_perm {A} (f : A -> Q) (l l' : list A) :
  Permutation l l' -> Qsum (map f l) == Qsum (map f l').
Proof. intros H. apply Qsum_perm. now apply Permutation_map. Qed.

Lemma items_of_ids (cs : list InvestmentCloud) :
  forall k, map Reference.item_id (items_of k cs) = seq k (List.length cs).
Proof.
  induction cs as [|c cs IH]; intros k; simpl; [reflexivity|].
  now rewrite IH.
Qed.

Lemma values_items (w : Pulp.valuation) (cs : list InvestmentCloud) :
  forall k, values_of w k (List.length cs)
            = map (fun a => w (Reference.item_id a)) (items_of k cs).
Proof.
  intros k. unfold values_of. rewrite <- items_of_ids. now rewrite map_map.
Qed.

Lemma in_box_items (w : Pulp.valuation) (cs : list InvestmentCloud) :
  forall k, in_box cs (values_of w k (List.length cs))
            <-> Forall (fun a => fits a (w (Reference.item_id a))) (items_of k cs).
Proof.
  unfold in_box, values_of, fits.
  induction cs as [|c cs IH]; intros k; simpl.
  - split; constructor.
  - split; intros H.
    + inversion H as [|? ? ? ? (H0 & H1 & H2) H']; subst.
      constructor; [|now apply IH]. simpl. split; [|exact H2].
      apply Q.max_lub_iff. now split.
    + inversion H as [|? ? [H1 H2] H']; subst. simpl in H1, H2.
      apply Q.max_lub_iff in H1.
      constructor; [tauto | now apply IH].
Qed.

Lemma return_items (w : Pulp.valuation) (cs : list InvestmentCloud) :
  forall k,
    Qsum (map (fun cq => expected_return (fst cq) * snd cq)
              (combine cs (values_of w k (List.length cs))))
    == Qsum (map (fun a => Reference.gain a * w (Reference.item_id a)) (items_of k cs)).
Proof.
  unfold values_of.
  induction cs as [|c cs IH]; intros k; simpl; [reflexivity|].
  rewrite IH. lra.
Qed.

Lemma feasible_items (cs : list InvestmentCloud) (w : Pulp.valuation) :
  Pulp.feasible (lp_model cs) w <->
  Forall (fun a => fits a (w (Reference.item_id a))) (items_of 0 cs) /\
  Qsum (map (fun a => w (Reference.item_id a)) (items_of 0 cs)) == 1.
Proof.
  rewrite feasible_lp_model, in_box_items, values_items. reflexivity.
Qed.

Lemma objective_items (cs : list InvestmentCloud) (w : Pulp.valuation) :
  Pulp.objective_value (lp_model cs) w
  == Qsum (map (fun a => Reference.gain a * w (Reference.item_id a)) (items_of 0 cs)).
Proof. rewrite objective_lp_model. apply return_items. Qed.

Lemma yield_map (f : Reference.item -> Q) (l : list Reference.item) :
  yield l (map f l) = Qsum (map (fun a => Reference.gain a * f a) l).
Proof.
  unfold yield. induction l as [|a l IH]; simpl; [reflexivity|].
  now rewrite IH.
Qed.

Lemma fits_map (f : Reference.item -> Q) (l : list Reference.item) :
  Forall (fun a => fits a (f a)) l <-> Forall2 fits l (map f l).
Proof.
  induction l as [|a l IH]; simpl.
  - split; constructor.
  - split; intros H; inversion H; subst; constructor; tauto.
Qed.

(** The valuation of the reference solver gives each item what the filling
    gave it. *)
Lemma lookup_fill (l : list Reference.item) :
  NoDup (map Reference.item_id l) ->
  forall rest,
    map (fun a => Reference.lookup (Reference.item_id a) (Reference.fill rest l)) l
    = map snd (Reference.fill rest l).
Proof.
  induction l as [|a l IH]; intros Hnd rest; [reflexivity|].
  cbn [map] in Hnd. inversion Hnd as [|? ? Hnotin Hnd']; subst.
  cbn [Reference.fill map snd Reference.lookup]. rewrite Nat.eqb_refl. f_equal.
  rewrite <- (IH Hnd').
  apply map_ext_in. intros b Hb.
  destruct (Nat.eqb (Reference.item_id b) (Reference.item_id a)) eqn:E; [|reflexivity].
  apply Nat.eqb_eq in E. exfalso. apply Hnotin. rewrite <- E.
  now apply in_map.
Qed.

(** Optimality of the filling among the values that use the budget. *)
Lemma fill_best_exact (l : list Reference.item) (rest : Q) (ws : list Q) :
  descending l ->
  Forall (fun a => Reference.lower a <= Reference.upper a) l ->
  0 <= rest ->
  Forall2 fits l ws ->
  Qsum ws == Qsum (map Reference.lower l) + rest ->
  yield l ws <= yield l (map snd (Reference.fill rest l)).
Proof.
  intros Hdesc Hok Hrest Hfit Hsum.
  destruct l as [|a l].
  - inversion Hfit; subst. unfold yield. simpl. lra.
  - assert (HG : Forall (fun b => Reference.gain b <= Reference.gain a) (a :: l)).
    { constructor; [lra|]. now inversion Hdesc. }
    pose proof (fill_best (a :: l) Hdesc Hok rest ws (Reference.gain a) 0
                  Hrest Hfit HG ltac:(lra) ltac:(lra)) as H.
    assert (E : Reference.gain a * 0 == 0) by ring.
    lra.
Qed.

Lemma box_budget_feasible_iff (budget : Q) (items : list Reference.item) :
  Reference.box_budget_feasible budget items = true <->
  Forall (fun a => Reference.lower a <= Reference.upper a) items /\
  Qsum (map Reference.lower items) <= budget /\
  budget <= Qsum (map Reference.upper items).
Proof.
  unfold Reference.box_budget_feasible.
  rewrite !andb_true_iff, !Qle_bool_iff, forallb_forall, Forall_forall.
  split.
  - intros [[H1 H2] H3]. split; [|tauto].
    intros a Ha. apply Qle_bool_iff. now apply H1.
  - intros (H1 & H2 & H3). split; [split|]; try assumption.
    intros a Ha. apply Qle_bool_iff. now apply H1.
Qed.

Lemma reference_solve_lp_model (cs : list InvestmentCloud) :
  Pulp.answered Reference.solve (lp_model cs) =
  if Reference.box_budget_feasible 1 (items_of 0 cs)
  then (Pulp.LpStatusOptimal,
        fun i => Reference.lookup i
                   (Reference.fill (1 - Qsum (map Reference.lower (items_of 0 cs)))
                                   (Reference.sort_by_gain (items_of 0 cs))))
  else (Pulp.LpStatusInfeasible, fun _ => 0).
Proof.
  unfold Pulp.answered, Reference.solve, Reference.answer_of.
  rewrite decode_lp_model. reflexivity.
Qed.

(** The reference solver is exact on the problem of every list of clouds:
    the guarantees assumed of the solver can always be met. *)
Theorem reference_exact (cs : list InvestmentCloud) :
  Pulp.exact_on Reference.solve (lp_model cs).
Proof.
  pose proof (reference_solve_lp_model cs) as Hsolve.
  set (items := items_of 0 cs) in *.
  set (sorted := Reference.sort_by_gain items) in *.
  set (rest := 1 - Qsum (map Reference.lower items)) in *.
  destruct (Reference.box_budget_feasible 1 items) eqn:Hfeas.
  - (* a feasible box: the filling is optimal *)
    apply box_budget_feasible_iff in Hfeas. destruct Hfeas as (Hok & Hlo & Hhi).
    assert (Hperm : Permutation sorted items) by apply sort_by_gain_perm.
    assert (Hdesc : descending sorted) by apply sort_by_gain_descending.
    assert (Hoks : Forall (fun a => Reference.lower a <= Reference.upper a) sorted)
      by (apply (Permutation_Forall (Permutation_sym Hperm)); exact Hok).
    assert (Hnd : NoDup (map Reference.item_id sorted)).
    { apply (Permutation_NoDup (l := map Reference.item_id items)).
      - apply Permutation_map. now apply Permutation_sym.
      - unfold items. rewrite items_of_ids. apply seq_NoDup. }
    assert (Hlos : Qsum (map Reference.lower sorted) == Qsum (map Reference.lower items))
      by now apply Qsum_map_perm.
    assert (Hhis : Qsum (map Reference.upper sorted) == Qsum (map Reference.upper items))
      by now apply Qsum_map_perm.
    assert (Hrest : 0 <= rest) by (subst rest; lra).
    assert (Hcap : rest <= capacity sorted) by (rewrite capacity_sums; subst rest; lra).
    set (v := fun i : nat => Reference.lookup i (Reference.fill rest sorted)) in *.
    assert (Hv : map (fun a => v (Reference.item_id a)) sorted
                 = map snd (Reference.fill rest sorted))
      by (apply (lookup_fill sorted Hnd rest)).
    assert (Hvfeas : Pulp.feasible (lp_model cs) v).
    { apply feasible_items. fold items. split.
      - apply (Permutation_Forall Hperm). apply fits_map. rewrite Hv.
        now apply fill_fits.
      - rewrite <- (Qsum_map_perm _ _ _ Hperm), Hv.
        rewrite (fill_sum sorted Hoks rest Hrest Hcap). subst rest. lra. }
    constructor; [eexists; reflexivity | ..];
      rewrite Hsolve; cbn [fst snd]; try discriminate.
    + left. reflexivity.
    + intros _. split; [exact Hvfeas|].
      intros w Hw. unfold Pulp.no_worse.
      change (Pulp.sense (lp_model cs)) with Pulp.LpMaximize. cbv iota.
      rewrite !objective_items. fold items.
      apply feasible_items in Hw. fold items in Hw. destruct Hw as [Hwfit Hwsum].
      rewrite <- (Qsum_map_perm _ _ _ Hperm).
      rewrite <- (Qsum_map_perm (fun a => Reference.gain a * v (Reference.item_id a))
                    _ _ Hperm).
      rewrite <- !yield_map. rewrite Hv.
      apply fill_best_exact; try assumption.
      * apply fits_map. now apply (Permutation_Forall (Permutation_sym Hperm)).
      * rewrite (Qsum_map_perm _ _ _ Hperm), Hwsum. subst rest. lra.
  - (* an empty box: no valuation is feasible *)
    constructor; [eexists; reflexivity | ..];
      rewrite Hsolve; cbn [fst snd]; try discriminate.
    + right. left. reflexivity.
    + intros _ w Hw. apply feasible_items in Hw. fold items in Hw.
      destruct Hw as [Hwfit Hwsum].
      assert (Hyes : Reference.box_budget_feasible 1 items = true).
      { apply box_budget_feasible_iff.
        apply fits_map in Hwfit. destruct (fits_sum _ _ Hwfit) as [H1 H2].
        split; [|lra].
        apply Forall_forall. intros a Ha.
        rewrite <- fits_map in Hwfit. rewrite Forall_forall in Hwfit.
        destruct (Hwfit a Ha) as [Ha1 Ha2]. lra. }
      congruence.
Qed.

(** ** The reference solver on the examples *)

Example reference_example_status :
  fst (Pulp.answered Reference.solve (lp_model example_clouds)) = Pulp.LpStatusOptimal.
Proof. vm_compute. reflexivity. Qed.

Example reference_example_values :
  values_of (snd (Pulp.answered Reference.solve (lp_model example_clouds))) 0 4 = example_optimum.
Proof. vm_compute. reflexivity. Qed.

Example reference_overfull_status :
  fst (Pulp.answered Reference.solve (lp_model overfull_clouds)) = Pulp.LpStatusInfeasible /\
  fst (Pulp.answered Reference.solve (lp_model underfull_clouds)) = Pulp.LpStatusInfeasible.
Proof. split; vm_compute; reflexivity. Qed.

(** ** Instances on the examples *)




Lemma example_allocation_witness :
  Pulp.exact_on Reference.solve (lp_model example_clouds) /\
  exists a b c d : Q,
    fst (calculate_optimal_asset_dist Reference.solve example_clouds)
    = Returned [ {| name := "A"; proportion := a |};
                 {| name := "B"; proportion := b |};
                 {| name := "C"; proportion := c |};
                 {| name := "D"; proportion := d |} ] /\
    a + b + c + d == 1 /\ c == 50 # 100 /\ d == 20 # 100.
Proof.
  split; [exact (reference_exact example_clouds)|].
  destruct (example_allocation Reference.solve (reference_exact example_clouds))
    as (a & b & c & d & Hres & Hsum & Hc & Hd & _).
  exists a, b, c, d. repeat split; assumption.
Defined.


(** * Further properties of the module *)

(** ** What the optimizer raises and returns *)

Lemma objective_bounded (cs : list InvestmentCloud) (w : Pulp.valuation) :
  Pulp.feasible (lp_model cs) w ->
  Pulp.objective_value (lp_model cs) w
  <= Qsum (map (fun c => Qabs (expected_return c) * maximum c) cs).
Proof.
  intros Hw. apply feasible_lp_model in Hw. destruct Hw as [Hbox _].
  rewrite objective_lp_model. now apply in_box_return_bound.
Qed.

Lemma feasible_point_iff (cs : list InvestmentCloud) :
  (exists w, Pulp.feasible (lp_model cs) w) <-> exists qs, admissible cs qs.
Proof.
  unfold admissible. split.
  - intros [w Hw]. apply feasible_lp_model in Hw.
    exists (values_of w 0 (List.length cs)). exact Hw.
  - intros (qs & Hbox & Hsum). exists (valuation_of qs).
    now apply feasible_of_list.
Qed.

(** An exact solver answers [Optimal] exactly on the feasible problems: the
    objective of these problems is bounded. *)
Lemma exact_optimal_iff (solve : Pulp.solver) (cs : list InvestmentCloud) :
  Pulp.exact_on solve (lp_model cs) ->
  (fst (Pulp.answered solve (lp_model cs)) = Pulp.LpStatusOptimal <-> exists qs, admissible cs qs).
Proof.
  intros Hex. rewrite <- feasible_point_iff. split.
  - intros Hopt. exists (snd (Pulp.answered solve (lp_model cs))).
    exact (proj1 (Pulp.optimal_sound solve _ Hex Hopt)).
  - intros Hw.
    apply (exact_feasible_bounded solve (lp_model cs)
             (Qsum (map (fun c => Qabs (expected_return c) * maximum c) cs)) Hex);
      [reflexivity | exact Hw | apply objective_bounded].
Qed.

Lemma results_nonneg (cs : list InvestmentCloud) (value : Pulp.valuation) :
  in_box cs (values_of value 0 (List.length cs)) ->
  Forall (fun r => 0 <= proportion r) (results_of value cs).
Proof.
  intros Hbox. apply in_box_split in Hbox. destruct Hbox as [_ Hnn].
  rewrite <- results_of_proportions in Hnn.
  rewrite Forall_map in Hnn. exact Hnn.
Qed.

Lemma total_return_proportions (cs : list InvestmentCloud) :
  forall res : list AssetDist,
    total_return cs res
    = Qsum (map (fun cq => expected_return (fst cq) * snd cq)
                (combine cs (map proportion res))).
Proof.
  unfold total_return.
  induction cs as [|c cs IH]; intros res; [reflexivity|].
  destruct res as [|r res]; [reflexivity|]. simpl. now rewrite IH.
Qed.

Lemma total_return_results (cs : list InvestmentCloud) (value : Pulp.valuation) :
  total_return cs (results_of value cs) == Pulp.objective_value (lp_model cs) value.
Proof.
  rewrite total_return_proportions, results_of_proportions, objective_lp_model.
  reflexivity.
Qed.

Lemma within_in_box (cs : list InvestmentCloud) (res : list AssetDist) :
  Forall2 within cs res -> Forall (fun r => 0 <= proportion r) res ->
  in_box cs (map proportion res).
Proof.
  unfold in_box, within.
  induction 1 as [|c r cs res [H1 H2] _ IH]; intros Hnn; simpl; constructor.
  - inversion Hnn; subst. tauto.
  - apply IH. now inversion Hnn.
Qed.

(** The total return of any admissible allocation is the objective at a
    feasible valuation. *)
Lemma total_return_feasible (cs : list InvestmentCloud) (res : list AssetDist) :
  Forall2 within cs res -> Forall (fun r => 0 <= proportion r) res ->
  sum_proportion res == 1 ->
  Pulp.feasible (lp_model cs) (valuation_of (map proportion res)) /\
  Pulp.objective_value (lp_model cs) (valuation_of (map proportion res))
  == total_return cs res.
Proof.
  intros Hw Hnn Hsum.
  pose proof (within_in_box cs res Hw Hnn) as Hbox. split.
  - now apply feasible_of_list.
  - rewrite objective_lp_model, total_return_proportions.
    rewrite <- (in_box_length _ _ Hbox), values_of_valuation. reflexivity.
Qed.

(** X2.  Whatever the clouds hold (also clouds whose attributes break
    [0 <= minimum <= maximum <= 1]), results returned with an exact solver
    meet every constraint: no proportion is negative, each lies between the
    minimum and the maximum of its cloud, and they sum to [1]. *)
Theorem solve_result_meets_constraints :
  forall (solve : Pulp.solver) (h : store) (res : list AssetDist),
    h <> [] ->
    Pulp.exact_on solve (lp_model h) ->
    fst (calculate_optimal_asset_dist solve h) = Returned res ->
    Forall (fun r => 0 <= proportion r) res /\
    Forall2 within h res /\
    sum_proportion res == 1.
Proof.
  intros solve h res Hne Hex. rewrite (calculate_optimal_asset_dist_run solve h Hne). simpl.
  intros Hres. destruct (returned_optimal solve h res Hres) as [Hopt ->].
  pose proof (Pulp.optimal_sound solve _ Hex Hopt) as [Hfeas _].
  apply feasible_lp_model in Hfeas. destruct Hfeas as [Hbox Hone].
  split; [now apply results_nonneg|]. split; [now apply results_within|].
  unfold sum_proportion. rewrite results_of_proportions. exact Hone.
Qed.

(** X3.  Results returned with an exact solver maximise the total expected
    return: no allocation that meets the constraints returns more. *)
Theorem solve_result_maximal :
  forall (solve : Pulp.solver) (h : store) (res other : list AssetDist),
    h <> [] ->
    Pulp.exact_on solve (lp_model h) ->
    fst (calculate_optimal_asset_dist solve h) = Returned res ->
    Forall (fun r => 0 <= proportion r) other ->
    Forall2 within h other ->
    sum_proportion other == 1 ->
    total_return h other <= total_return h res.
Proof.
  intros solve h res other Hne Hex.
  rewrite (calculate_optimal_asset_dist_run solve h Hne). simpl.
  intros Hres Hnn Hw Hsum.
  destruct (returned_optimal solve h res Hres) as [Hopt ->].
  pose proof (Pulp.optimal_sound solve _ Hex Hopt) as [_ Hbest].
  destruct (total_return_feasible h other Hw Hnn Hsum) as [Hfeas Hobj].
  specialize (Hbest _ Hfeas). unfold Pulp.no_worse in Hbest. simpl in Hbest.
  rewrite total_return_results, <- Hobj. exact Hbest.
Qed.

Lemma items_lower (cs : list InvestmentCloud) :
  forall k, map Reference.lower (items_of k cs) = map floor cs.
Proof.
  induction cs as [|c cs IH]; intros k; simpl; [reflexivity | now rewrite IH].
Qed.

Lemma items_upper (cs : list InvestmentCloud) :
  forall k, map Reference.upper (items_of k cs) = map maximum cs.
Proof.
  induction cs as [|c cs IH]; intros k; simpl; [reflexivity | now rewrite IH].
Qed.

Lemma items_ok (cs : list InvestmentCloud) :
  forall k,
    Forall (fun a => Reference.lower a <= Reference.upper a) (items_of k cs)
    <-> Forall (fun c => floor c <= maximum c) cs.
Proof.
  induction cs as [|c cs IH]; intros k; simpl.
  - split; constructor.
  - split; intros H; inversion H; subst; constructor;
      try assumption; now apply (IH (S k)).
Qed.

(** The constraints can be met exactly when every variable has room between
    its real lower bound and its maximum, the lower bounds sum to at most
    [1] and the maximums to at least [1]. *)
Lemma admissible_criterion (cs : list InvestmentCloud) :
  (exists qs, admissible cs qs) <->
  Forall (fun c => floor c <= maximum c) cs /\
  Qsum (map floor cs) <= 1 /\ 1 <= sum_maximum cs.
Proof.
  rewrite <- (exact_optimal_iff Reference.solve cs (reference_exact cs)).
  rewrite reference_solve_lp_model.
  rewrite <- (items_ok cs 0), <- (items_lower cs 0).
  unfold sum_maximum. rewrite <- (items_upper cs 0).
  rewrite <- box_budget_feasible_iff.
  destruct (Reference.box_budget_feasible 1 (items_of 0 cs)); simpl;
    split; intros H; reflexivity || discriminate H.
Qed.

(** X4.  With an exact solver the call fails only for want of an
    allocation: it raises [NonFeasibleSolutionError] exactly when no
    allocation meets the constraints, and it returns exactly when every
    cloud has [max(0, minimum) <= maximum], these lower bounds sum to at most
    [1] and the maximums sum to at least [1]. *)
Theorem solve_fails_iff_infeasible :
  forall (solve : Pulp.solver) (h : store),
    h <> [] ->
    Pulp.exact_on solve (lp_model h) ->
    (fst (calculate_optimal_asset_dist solve h) = Raised NonFeasibleSolutionError
       <-> ~ exists qs, admissible h qs) /\
    ((exists res, fst (calculate_optimal_asset_dist solve h) = Returned res)
       <-> Forall (fun c => floor c <= maximum c) h /\
           Qsum (map floor h) <= 1 /\ 1 <= sum_maximum h).
Proof.
  intros solve h Hne Hex. rewrite (calculate_optimal_asset_dist_run solve h Hne). simpl.
  rewrite <- admissible_criterion.
  rewrite <- (exact_optimal_iff solve h Hex).
  destruct (allocation_cases solve h (Pulp.solver_returns _ _ Hex))
    as [[Hopt ->] | [Hno ->]]; split; split.
  - discriminate.
  - intros H. contradiction.
  - intros _. exact Hopt.
  - intros _. eexists. reflexivity.
  - intros _. exact Hno.
  - reflexivity.
  - intros [res H]. discriminate H.
  - intros H. contradiction.
Qed.

(** X5.  Two exact solvers agree on the outcome up to ties: both calls
    raise, or both return results for the same assets with the same total
    expected return. *)
Theorem solve_value_independent_of_solver :
  forall (solve1 solve2 : Pulp.solver) (h : store),
    h <> [] ->
    Pulp.exact_on solve1 (lp_model h) ->
    Pulp.exact_on solve2 (lp_model h) ->
    (fst (calculate_optimal_asset_dist solve1 h) = Raised NonFeasibleSolutionError /\
     fst (calculate_optimal_asset_dist solve2 h) = Raised NonFeasibleSolutionError)
    \/
    (exists res1 res2,
       fst (calculate_optimal_asset_dist solve1 h) = Returned res1 /\
       fst (calculate_optimal_asset_dist solve2 h) = Returned res2 /\
       map name res1 = map name res2 /\
       total_return h res1 == total_return h res2).
Proof.
  intros solve1 solve2 h Hne Hex1 Hex2.
  rewrite !(calculate_optimal_asset_dist_run _ h Hne). simpl.
  pose proof (exact_optimal_iff solve1 h Hex1) as H1.
  pose proof (exact_optimal_iff solve2 h Hex2) as H2.
  destruct (allocation_cases solve1 h (Pulp.solver_returns _ _ Hex1))
    as [[Hopt1 ->] | [Hno1 ->]];
    destruct (allocation_cases solve2 h (Pulp.solver_returns _ _ Hex2))
      as [[Hopt2 ->] | [Hno2 ->]].
  - right. eexists. eexists. split; [reflexivity|]. split; [reflexivity|].
    split; [now rewrite !results_of_names|].
    rewrite !total_return_results.
    destruct (Pulp.optimal_sound solve1 _ Hex1 Hopt1) as [Hf1 Hb1].
    destruct (Pulp.optimal_sound solve2 _ Hex2 Hopt2) as [Hf2 Hb2].
    specialize (Hb1 _ Hf2). specialize (Hb2 _ Hf1).
    unfold Pulp.no_worse in Hb1, Hb2. simpl in Hb1, Hb2. lra.
  - exfalso. apply Hno2. apply H2. now apply H1.
  - exfalso. apply Hno1. apply H1. now apply H2.
  - left. split; reflexivity.
Qed.

(** X6.  A portfolio of a single valid cloud with a non-empty label: with
    an exact solver the call returns exactly when the maximum of the cloud is
    [1], and then the single result carries the name that the library kept
    for the asset and the proportion [1]. *)
Theorem solve_single_cloud :
  forall (solve : Pulp.solver) (c : InvestmentCloud),
    bounds_ok c ->
    asset c <> ""%string ->
    Pulp.exact_on solve (lp_model [c]) ->
    ((exists res, fst (calculate_optimal_asset_dist solve [c]) = Returned res)
       <-> maximum c == 1) /\
    (forall res, fst (calculate_optimal_asset_dist solve [c]) = Returned res ->
       exists p, res = [ {| name := Pulp.kept_name (asset c); proportion := p |} ]
                 /\ p == 1).
Proof.
  intros solve c (H0 & H1 & H2) _ Hex.
  rewrite calculate_optimal_asset_dist_run by discriminate. simpl. split.
  - assert (Hcrit : (exists res, allocation solve [c] = Returned res)
                    <-> exists qs, admissible [c] qs).
    { rewrite <- (exact_optimal_iff solve [c] Hex).
      destruct (allocation_cases solve [c] (Pulp.solver_returns _ _ Hex))
        as [[Hopt ->] | [Hno ->]]; split.
      - intros _. exact Hopt.
      - intros _. eexists. reflexivity.
      - intros [res H]. discriminate H.
      - intros H. contradiction. }
    rewrite Hcrit, admissible_criterion. unfold sum_maximum, floor. simpl.
    assert (Hm : Qmax 0 (minimum c) == minimum c) by (apply Q.max_r; exact H0).
    split.
    + intros (_ & _ & Hge). lra.
    + intros E. split; [constructor; [lra | constructor] | lra].
  - intros res Hres. destruct (returned_optimal solve [c] res Hres) as [Hopt ->].
    pose proof (Pulp.optimal_sound solve _ Hex Hopt) as [Hfeas _].
    apply feasible_lp_model in Hfeas. destruct Hfeas as [_ Hone].
    unfold values_of in Hone. simpl in Hone.
    eexists. split; [reflexivity|]. simpl. lra.
Qed.

(** ** The page and the stored document *)

Lemma Qsum_scale {A} (f : A -> Q) (k : Q) (l : list A) :
  Qsum (map (fun a => f a * k) l) == Qsum (map f l) * k.
Proof.
  induction l as [|a l IH]; simpl; [ring|]. rewrite IH. ring.
Qed.

(** The pie that [display_assets_pie] asks for. *)
Lemma display_assets_pie_call (res : list AssetDist) :
  Palette.display_assets_pie res =
  Returned {| Palette.pie_proportions := map (fun a => proportion a * 100) res;
              Palette.pie_labels := map name res;
              Palette.pie_colors := Palette.colors |}.
Proof. reflexivity. Qed.

Lemma optimise_portfolio_run (solve : Pulp.solver) (draw : Render.plotter) (h : store) :
  h <> [] ->
  Render.optimise_portfolio solve draw h =
  match allocation solve h with
  | Returned res =>
      match draw {| Palette.pie_proportions := map (fun a => proportion a * 100) res;
                    Palette.pie_labels := map name res;
                    Palette.pie_colors := Palette.colors |} with
      | Returned _ =>
          (Returned (Render.Pyplot
                       {| Palette.pie_proportions := map (fun a => proportion a * 100) res;
                          Palette.pie_labels := map name res;
                          Palette.pie_colors := Palette.colors |}), h)
      | Raised NonFeasibleSolutionError =>
          (Returned (Render.StError "Non feasible investment clouds"), h)
      | Raised e => (Raised e, h)
      end
  | Raised NonFeasibleSolutionError =>
      (Returned (Render.StError "Non feasible investment clouds"), h)
  | Raised e => (Raised e, h)
  end.
Proof.
  intros Hne. unfold Render.optimise_portfolio, bind.
  rewrite (calculate_optimal_asset_dist_run solve h Hne).
  destruct (allocation solve h) as [res | e]; [|destruct e; reflexivity].
  unfold lift, ret. rewrite display_assets_pie_call.
  destruct (draw _) as [[] | e]; [reflexivity | destruct e; reflexivity].
Qed.

Lemma optimise_portfolio_empty (solve : Pulp.solver) (draw : Render.plotter) :
  Render.optimise_portfolio solve draw [] = (Raised TypeError, []).
Proof.
  unfold Render.optimise_portfolio, bind.
  now rewrite calculate_optimal_asset_dist_empty.
Qed.

(** X7.  The "Optimise portfolio" branch catches
    [NonFeasibleSolutionError] and nothing else, and never changes the
    clouds.  On a list that is not empty it shows the message
    ["Non feasible investment clouds"] when [model.solve()] returns with a
    status other than ["Optimal"]; with the status ["Optimal"] and a plot
    that succeeds it shows the pie; any other exception of [model.solve()]
    or of the plotting leaves the branch, and so does the [TypeError] that
    the empty list causes. *)
Theorem optimise_portfolio_shows :
  forall (solve : Pulp.solver) (draw : Render.plotter) (h : store),
    snd (Render.optimise_portfolio solve draw h) = h /\
    (h = [] -> fst (Render.optimise_portfolio solve draw h) = Raised TypeError) /\
    (h <> [] ->
     (forall e, solve (lp_model h) = Raised e -> e <> NonFeasibleSolutionError ->
        fst (Render.optimise_portfolio solve draw h) = Raised e) /\
     (forall st v, solve (lp_model h) = Returned (st, v) ->
        Pulp.LpStatus st <> "Optimal"%string ->
        fst (Render.optimise_portfolio solve draw h)
        = Returned (Render.StError "Non feasible investment clouds")) /\
     (forall st v call,
        solve (lp_model h) = Returned (st, v) ->
        Pulp.LpStatus st = "Optimal"%string ->
        Palette.display_assets_pie (results_of v h) = Returned call ->
        (draw call = Returned tt ->
         fst (Render.optimise_portfolio solve draw h) = Returned (Render.Pyplot call)) /\
        (forall e, draw call = Raised e -> e <> NonFeasibleSolutionError ->
           fst (Render.optimise_portfolio solve draw h) = Raised e))).
Proof.
  intros solve draw h. destruct h as [|c h].
  - rewrite optimise_portfolio_empty. split; [reflexivity|].
    split; [reflexivity | intros H; contradiction].
  - assert (Hne : c :: h <> []) by discriminate.
    rewrite (optimise_portfolio_run solve draw (c :: h) Hne).
    split; [|split; [discriminate|]].
    + destruct (allocation solve (c :: h)) as [res | e]; [|destruct e; reflexivity].
      destruct (draw _) as [[] | e]; [reflexivity | destruct e; reflexivity].
    + intros _. split; [|split].
      * intros e E He. rewrite (allocation_raised solve _ e E).
        destruct e; try reflexivity. contradiction.
      * intros st v E Hst.
        destruct (allocation_of_answer solve _ st v E) as [[Hopt _] | [_ ->]];
          [contradiction | reflexivity].
      * intros st v call E Hst Hcall.
        destruct (allocation_of_answer solve _ st v E) as [[_ ->] | [Hno _]];
          [|contradiction].
        rewrite display_assets_pie_call in Hcall.
        assert (Hc : call = _) by (symmetry; exact (f_equal (fun o => match o with Returned x => x | Raised _ => call end) Hcall)).
        clear Hcall. subst call.
        split.
        -- intros ->. reflexivity.
        -- intros e -> He. destruct e; try reflexivity. contradiction.
Qed.

Lemma within_percent (cs : list InvestmentCloud) (rs : list AssetDist) :
  Forall2 within cs rs ->
  Forall2 (fun c p => minimum c * 100 <= p /\ p <= maximum c * 100)
          cs (map (fun a => proportion a * 100) rs).
Proof.
  induction 1 as [|c r cs rs [H1 H2] _ IH]; simpl; constructor; [|exact IH].
  split; apply Qmult_le_compat_r; assumption || discriminate.
Qed.

Lemma nonneg_percent (rs : list AssetDist) :
  Forall (fun r => 0 <= proportion r) rs ->
  Forall (fun p => 0 <= p) (map (fun a => proportion a * 100) rs).
Proof.
  induction 1 as [|r rs Hr _ IH]; simpl; constructor; [|exact IH].
  apply Qmult_le_0_compat; [exact Hr | discriminate].
Qed.

(** X8.  For valid clouds with non-empty labels and
    [sum_minimum <= 1 <= sum_maximum], and an exact solver, the branch asks
    for a pie whose labels are the names that the library kept for the
    assets, whose percentages are not negative, sum to [100] and lie each
    between [100] times the minimum and [100] times the maximum of its
    cloud; it shows this pie whenever the plot succeeds. *)
Theorem optimise_portfolio_pie :
  forall (solve : Pulp.solver) (h : store),
    Forall bounds_ok h ->
    Forall (fun c => asset c <> ""%string) h ->
    sum_minimum h <= 1 ->
    1 <= sum_maximum h ->
    Pulp.exact_on solve (lp_model h) ->
    exists call,
      Palette.pie_labels call = map (fun c => Pulp.kept_name (asset c)) h /\
      Palette.pie_colors call = Palette.colors /\
      Forall (fun p => 0 <= p) (Palette.pie_proportions call) /\
      Qsum (Palette.pie_proportions call) == 100 /\
      Forall2 (fun c p => minimum c * 100 <= p /\ p <= maximum c * 100)
              h (Palette.pie_proportions call) /\
      forall draw : Render.plotter,
        draw call = Returned tt ->
        Render.optimise_portfolio solve draw h = (Returned (Render.Pyplot call), h).
Proof.
  intros solve h Hok _ Hmin Hmax Hex.
  assert (Hne : h <> []).
  { intros ->. unfold sum_maximum in Hmax. simpl in Hmax. lra. }
  pose proof (exact_answers_optimal solve h Hok Hmin Hmax Hex) as Hopt.
  pose proof (Pulp.optimal_sound solve _ Hex Hopt) as [Hfeas _].
  apply feasible_lp_model in Hfeas. destruct Hfeas as [Hbox Hone].
  eexists. split; [|split; [|split; [|split; [|split]]]].
  6: { intros draw Hdraw. rewrite (optimise_portfolio_run solve draw h Hne).
       destruct (allocation_cases solve h (Pulp.solver_returns _ _ Hex))
         as [[_ ->] | [Hno _]]; [|contradiction].
       rewrite Hdraw. reflexivity. }
  - simpl. apply results_of_names.
  - reflexivity.
  - simpl. apply nonneg_percent. now apply results_nonneg.
  - simpl. rewrite Qsum_scale, results_of_proportions, Hone. reflexivity.
  - simpl. apply within_percent. now apply results_within.
Qed.

(** X9.  The cloud shown for a selected label is the first cloud of the
    list that carries the label (a later cloud with the same label is never
    shown), and [next] finds none exactly when the label is not among the
    options. *)
Theorem selected_investment_first :
  forall (clouds : list InvestmentCloud) (selected : string),
    (forall c,
       Render.selected_investment clouds selected = Some c
       <-> exists pre post,
             clouds = pre ++ c :: post /\ asset c = selected /\
             ~ In selected (Render.options pre)) /\
    (Render.selected_investment clouds selected = None
       <-> ~ In selected (Render.options clouds)).
Proof.
  intros clouds selected. unfold Render.options.
  induction clouds as [|c0 clouds [IHsome IHnone]]; simpl.
  - split.
    + intros c. split; [discriminate|].
      intros (pre & post & E & _). destruct pre; discriminate E.
    + split; [intros _ H; exact H | reflexivity].
  - destruct (String.eqb (asset c0) selected) eqn:E.
    + apply String.eqb_eq in E. split.
      * intros c. split.
        -- intros H. inversion H; subst c0. exists [], clouds. simpl. tauto.
        -- intros (pre & post & Hl & Ha & Hn).
           destruct pre as [|p pre]; simpl in Hl; inversion Hl; subst.
           ++ reflexivity.
           ++ exfalso. apply Hn. simpl. now left.
      * split; [discriminate | intros H; exfalso; apply H; now left].
    + apply String.eqb_neq in E. split.
      * intros c. rewrite IHsome. split.
        -- intros (pre & post & Hl & Ha & Hn). exists (c0 :: pre), post.
           simpl. subst clouds. split; [reflexivity|]. split; [exact Ha|].
           intros [H | H]; [contradiction | now apply Hn].
        -- intros (pre & post & Hl & Ha & Hn).
           destruct pre as [|p pre]; simpl in Hl; inversion Hl; subst.
           ++ contradiction.
           ++ exists pre, post. split; [reflexivity|]. split; [reflexivity|].
              intros H. apply Hn. simpl. now right.
      * rewrite IHnone. split.
        -- intros H [H' | H']; [contradiction | now apply H].
        -- intros H H'. apply H. now right.
Qed.

Lemma nth_error_map_middle {A B} (f : A -> B) (pre : list A) (a : A) (post : list A) :
  nth_error (map f (pre ++ a :: post)) (List.length pre) = Some (f a).
Proof. now rewrite nth_error_map, nth_error_middle. Qed.

Lemma records_of_table (cs : list InvestmentCloud) :
  forall pre : list InvestmentCloud,
    map (Render.record_at (Render.table (pre ++ cs)))
        (seq (List.length pre) (List.length cs))
    = map Render.record_of cs.
Proof.
  induction cs as [|c cs IH]; intros pre; [reflexivity|].
  cbn [List.length seq map]. f_equal.
  - unfold Render.record_at, Render.table. cbn [flat_map fst snd].
    rewrite !nth_error_map_middle. reflexivity.
  - rewrite (snoc_app pre c cs), <- (snoc_length pre c). apply IH.
Qed.

(** X10.  Synchronizing the table of a list of clouds appends one document
    to the collection and keeps the documents that were there; the data of
    the new document is one record per cloud, in the order of the clouds,
    that maps the four column names to the four attributes of the cloud. *)
Theorem synchronize_data_stores_table :
  forall (clouds : list InvestmentCloud) (collection : list Render.document),
    Forall (fun kc => List.length (snd kc) = List.length clouds) (Render.table clouds) /\
    exists doc,
      Render.synchronize_data (Render.table clouds) collection = collection ++ [doc] /\
      Render.data doc = map Render.record_of clouds /\
      List.length (Render.data doc) = List.length clouds /\
      forall i c, nth_error clouds i = Some c ->
        nth_error (Render.data doc) i
        = Some [ ("Asset"%string, Render.Str (asset c));
                 ("Expected return"%string, Render.Num (expected_return c));
                 ("Minimum investment"%string, Render.Num (minimum c));
                 ("Maximum investment"%string, Render.Num (maximum c)) ].
Proof.
  intros clouds collection. split.
  { unfold Render.table. repeat constructor; simpl; apply length_map. }
  assert (E : Render.to_dict_records (Render.table clouds) = map Render.record_of clouds).
  { unfold Render.to_dict_records.
    replace (Render.n_rows (Render.table clouds)) with (List.length clouds)
      by (unfold Render.n_rows, Render.table; now rewrite length_map).
    exact (records_of_table clouds []). }
  eexists. split; [reflexivity|]. simpl. rewrite E.
  split; [reflexivity|]. split; [apply length_map|].
  intros i c Hc. now rewrite (map_nth_error Render.record_of i clouds Hc).
Qed.

(** ** The return of the allocation and the order of the assets *)

Lemma return_between (cs : list InvestmentCloud) (qs : list Q) (lo hi : Q) :
  in_box cs qs ->
  (forall c, In c cs -> lo <= expected_return c /\ expected_return c <= hi) ->
  lo * Qsum qs
  <= Qsum (map (fun cq => expected_return (fst cq) * snd cq) (combine cs qs)) /\
  Qsum (map (fun cq => expected_return (fst cq) * snd cq) (combine cs qs))
  <= hi * Qsum qs.
Proof.
  unfold in_box.
  induction 1 as [|c q cs qs (H0 & _ & _) _ IH]; intros Hr; simpl.
  - split; ring_simplify; apply Qle_refl.
  - destruct (Hr c (or_introl eq_refl)) as [Hlo Hhi].
    destruct (IH (fun c' Hc' => Hr c' (or_intror Hc'))) as [IH1 IH2].
    assert (H1 : lo * q <= expected_return c * q)
      by (apply Qmult_le_compat_r; assumption).
    assert (H2 : expected_return c * q <= hi * q)
      by (apply Qmult_le_compat_r; assumption).
    assert (E1 : lo * (q + Qsum qs) == lo * q + lo * Qsum qs) by ring.
    assert (E2 : hi * (q + Qsum qs) == hi * q + hi * Qsum qs) by ring.
    split; lra.
Qed.

(** X11.  The total expected return of results returned with an exact
    solver lies between the lowest and the highest expected return of the
    clouds. *)
Theorem solve_return_between_extremes :
  forall (solve : Pulp.solver) (h : store) (res : list AssetDist) (lo hi : Q),
    h <> [] ->
    Pulp.exact_on solve (lp_model h) ->
    fst (calculate_optimal_asset_dist solve h) = Returned res ->
    (forall c, In c h -> lo <= expected_return c /\ expected_return c <= hi) ->
    lo <= total_return h res /\ total_return h res <= hi.
Proof.
  intros solve h res lo hi Hne Hex.
  rewrite (calculate_optimal_asset_dist_run solve h Hne). simpl.
  intros Hres Hr. destruct (returned_optimal solve h res Hres) as [Hopt ->].
  pose proof (Pulp.optimal_sound solve _ Hex Hopt) as [Hfeas _].
  apply feasible_lp_model in Hfeas. destruct Hfeas as [Hbox Hone].
  destruct (return_between h _ lo hi Hbox Hr) as [H1 H2].
  rewrite total_return_proportions, results_of_proportions.
  assert (E1 : lo * Qsum (values_of (snd (Pulp.answered solve (lp_model h))) 0 (List.length h)) == lo)
    by (rewrite Hone; ring).
  assert (E2 : hi * Qsum (values_of (snd (Pulp.answered solve (lp_model h))) 0 (List.length h)) == hi)
    by (rewrite Hone; ring).
  split; lra.
Qed.

Lemma in_box_pointwise (cs : list InvestmentCloud) (w : Pulp.valuation) :
  forall k0,
    in_box cs (values_of w k0 (List.length cs)) <->
    (forall i c, nth_error cs i = Some c ->
       0 <= w (k0 + i)%nat /\ minimum c <= w (k0 + i)%nat /\ w (k0 + i)%nat <= maximum c).
Proof.
  unfold in_box, values_of.
  induction cs as [|c cs IH]; intros k0; simpl.
  - split; [intros _ i c Hi; destruct i; discriminate Hi | constructor].
  - split.
    + intros H i c' Hi. inversion H as [|? ? ? ? Hc Hrest]; subst.
      destruct i as [|i]; simpl in Hi.
      * inversion Hi; subst. now rewrite Nat.add_0_r.
      * rewrite Nat.add_succ_r. apply (proj1 (IH (S k0)) Hrest i c' Hi).
    + intros H. constructor.
      * specialize (H 0%nat c eq_refl). now rewrite Nat.add_0_r in H.
      * apply IH. intros i c' Hi. specialize (H (S i) c' Hi).
        now rewrite Nat.add_succ_r in H.
Qed.

Lemma values_bump_outside (v : Pulp.valuation) (i : nat) (d : Q) (n k0 : nat) :
  (i < k0 \/ k0 + n <= i)%nat ->
  values_of (bump v i d) k0 n = values_of v k0 n.
Proof.
  intros Hi. unfold values_of. apply map_ext_in. intros k Hk.
  apply in_seq in Hk. unfold bump.
  assert (E : Nat.eqb k i = false) by (apply Nat.eqb_neq; lia).
  now rewrite E.
Qed.

Lemma sum_bump (v : Pulp.valuation) (d : Q) :
  forall n k0 i, (i < n)%nat ->
    Qsum (values_of (bump v (k0 + i) d) k0 n) == Qsum (values_of v k0 n) + d.
Proof.
  induction n as [|n IH]; intros k0 i Hi; [lia|].
  change (values_of (bump v (k0 + i) d) k0 (S n))
    with (bump v (k0 + i) d k0 :: values_of (bump v (k0 + i) d) (S k0) n).
  change (values_of v k0 (S n)) with (v k0 :: values_of v (S k0) n).
  cbn [Qsum]. unfold bump at 1. destruct i as [|i].
  - rewrite Nat.add_0_r, Nat.eqb_refl.
    rewrite values_bump_outside by lia. lra.
  - assert (E : Nat.eqb k0 (k0 + S i) = false) by (apply Nat.eqb_neq; lia).
    rewrite E. rewrite Nat.add_succ_r.
    change (S (k0 + i)) with (S k0 + i)%nat.
    rewrite IH by lia. lra.
Qed.

Lemma return_bump (v : Pulp.valuation) (d : Q) :
  forall cs k0 i ci,
    nth_error cs i = Some ci ->
    Qsum (map (fun cq => expected_return (fst cq) * snd cq)
              (combine cs (values_of (bump v (k0 + i) d) k0 (List.length cs))))
    == Qsum (map (fun cq => expected_return (fst cq) * snd cq)
                 (combine cs (values_of v k0 (List.length cs))))
       + expected_return ci * d.
Proof.
  induction cs as [|c cs IH]; intros k0 i ci Hi; [destruct i; discriminate Hi|].
  cbn [List.length].
  change (values_of (bump v (k0 + i) d) k0 (S (List.length cs)))
    with (bump v (k0 + i) d k0
            :: values_of (bump v (k0 + i) d) (S k0) (List.length cs)).
  change (values_of v k0 (S (List.length cs)))
    with (v k0 :: values_of v (S k0) (List.length cs)).
  cbn [combine map Qsum fst snd]. unfold bump at 1. destruct i as [|i]; simpl in Hi.
  - inversion Hi; subst. rewrite Nat.add_0_r, Nat.eqb_refl.
    rewrite values_bump_outside by lia. ring.
  - assert (E : Nat.eqb k0 (k0 + S i) = false) by (apply Nat.eqb_neq; lia).
    rewrite E. rewrite Nat.add_succ_r.
    change (S (k0 + i)) with (S k0 + i)%nat.
    rewrite (IH (S k0) i ci Hi). ring.
Qed.

Lemma results_of_nth (value : Pulp.valuation) (cs : list InvestmentCloud)
      (i : nat) (r : AssetDist) :
  nth_error (results_of value cs) i = Some r -> proportion r = value i.
Proof.
  intros Hr. pose proof (map_nth_error proportion i _ Hr) as H.
  rewrite results_of_proportions in H. unfold values_of in H.
  rewrite nth_error_map, nth_error_seq in H.
  destruct (Nat.ltb i (List.length cs)); simpl in H; [|discriminate H].
  now inversion H.
Qed.

(** Moving [d] from the variable [j] to the variable [i] keeps the sum and
    changes the objective by [d] times the difference of the returns. *)
Lemma transfer_effect (v : Pulp.valuation) (cs : list InvestmentCloud)
      (i j : nat) (ci cj : InvestmentCloud) (d : Q) :
  nth_error cs i = Some ci -> nth_error cs j = Some cj ->
  Qsum (values_of (bump (bump v i d) j (- d)) 0 (List.length cs))
  == Qsum (values_of v 0 (List.length cs)) /\
  Pulp.objective_value (lp_model cs) (bump (bump v i d) j (- d))
  == Pulp.objective_value (lp_model cs) v
     + (expected_return ci - expected_return cj) * d.
Proof.
  intros Hi Hj.
  assert (Hin : (i < List.length cs)%nat) by (apply nth_error_Some; congruence).
  assert (Hjn : (j < List.length cs)%nat) by (apply nth_error_Some; congruence).
  split.
  - rewrite (sum_bump (bump v i d) (- d) (List.length cs) 0 j Hjn).
    rewrite (sum_bump v d (List.length cs) 0 i Hin). ring.
  - rewrite !objective_lp_model.
    rewrite (return_bump (bump v i d) (- d) cs 0 j cj Hj).
    rewrite (return_bump v d cs 0 i ci Hi). ring.
Qed.

(** X12.  Results returned with an exact solver serve the better asset
    first: of two clouds with different expected returns, the one with the
    higher return is at its maximum, or the one with the lower return is at
    its lower bound [max(0, minimum)]. *)
Theorem solve_serves_higher_return_first :
  forall (solve : Pulp.solver) (h : store) (res : list AssetDist)
         (i j : nat) (ci cj : InvestmentCloud) (ri rj : AssetDist),
    Pulp.exact_on solve (lp_model h) ->
    fst (calculate_optimal_asset_dist solve h) = Returned res ->
    nth_error h i = Some ci -> nth_error h j = Some cj ->
    nth_error res i = Some ri -> nth_error res j = Some rj ->
    expected_return cj < expected_return ci ->
    proportion ri == maximum ci \/ proportion rj == floor cj.
Proof.
  intros solve h res i j ci cj ri rj Hex Hres Hi Hj Hri Hrj Hlt.
  assert (Hne : h <> []) by (intros ->; destruct i; discriminate Hi).
  rewrite (calculate_optimal_asset_dist_run solve h Hne) in Hres. simpl in Hres.
  destruct (returned_optimal solve h res Hres) as [Hopt ->].
  set (v := snd (Pulp.answered solve (lp_model h))) in *.
  rewrite (results_of_nth v h i ri Hri), (results_of_nth v h j rj Hrj).
  destruct (Pulp.optimal_sound solve _ Hex Hopt) as [Hfeas Hbest]. fold v in Hfeas, Hbest.
  apply feasible_lp_model in Hfeas. destruct Hfeas as [Hbox Hone].
  pose proof (proj1 (in_box_pointwise h v 0) Hbox) as Hpt. simpl in Hpt.
  destruct (Hpt i ci Hi) as (Hi0 & Hi1 & Hi2).
  destruct (Hpt j cj Hj) as (Hj0 & Hj1 & Hj2).
  assert (Hfl : floor cj <= v j) by (apply Q.max_lub_iff; now split).
  destruct (Qlt_le_dec (v i) (maximum ci)) as [Hroom | Hfull]; [|left; lra].
  destruct (Qlt_le_dec (floor cj) (v j)) as [Hspare | Hbare]; [|right; lra].
  exfalso.
  assert (Hij : i <> j) by (intros ->; rewrite Hi in Hj; inversion Hj; subst; lra).
  set (d := Qmin (maximum ci - v i) (v j - floor cj)).
  assert (Hd : 0 < d /\ d <= maximum ci - v i /\ d <= v j - floor cj).
  { subst d. split; [apply Q.min_glb_lt; lra|].
    split; [apply Q.le_min_l | apply Q.le_min_r]. }
  destruct Hd as (Hd0 & Hd1 & Hd2).
  assert (Hfloor : 0 <= floor cj /\ minimum cj <= floor cj).
  { unfold floor. split; [apply Q.le_max_l | apply Q.le_max_r]. }
  set (w := bump (bump v i d) j (- d)).
  destruct (transfer_effect v h i j ci cj d Hi Hj) as [Hsum Hobj]. fold w in Hsum, Hobj.
  assert (Hw : Pulp.feasible (lp_model h) w).
  { apply feasible_lp_model. split; [|lra].
    apply (in_box_pointwise h w 0). intros k c Hk. simpl.
    destruct (Hpt k c Hk) as (Hk0 & Hk1 & Hk2).
    unfold w, bump.
    destruct (Nat.eqb k j) eqn:Ekj; destruct (Nat.eqb k i) eqn:Eki.
    - apply Nat.eqb_eq in Ekj. apply Nat.eqb_eq in Eki. congruence.
    - apply Nat.eqb_eq in Ekj. subst k.
      rewrite Hj in Hk. inversion Hk; subst c. repeat split; lra.
    - apply Nat.eqb_eq in Eki. subst k.
      rewrite Hi in Hk. inversion Hk; subst c. repeat split; lra.
    - repeat split; assumption. }
  specialize (Hbest w Hw). unfold Pulp.no_worse in Hbest. simpl in Hbest.
  assert (Hgain : 0 < (expected_return ci - expected_return cj) * d)
    by (apply Qmult_lt_0_compat; lra).
  lra.
Qed.

(** ** Instances of the further properties *)

Lemma example_results_returned :
  fst (calculate_optimal_asset_dist Reference.solve example_clouds)
  = Returned example_results.
Proof. vm_compute. reflexivity. Qed.

Lemma solve_result_meets_constraints_witness :
  example_clouds <> [] /\
  Pulp.exact_on Reference.solve (lp_model example_clouds) /\
  Forall (fun r => 0 <= proportion r) example_results /\
  Forall2 within example_clouds example_results /\
  sum_proportion example_results == 1.
Proof.
  assert (Hne : example_clouds <> []) by discriminate.
  split; [exact Hne|]. split; [exact (reference_exact example_clouds)|].
  exact (solve_result_meets_constraints Reference.solve example_clouds example_results
           Hne (reference_exact example_clouds) example_results_returned).
Defined.

Lemma other_results_ok :
  Forall (fun r => 0 <= proportion r) other_results /\
  Forall2 within example_clouds other_results /\
  sum_proportion other_results == 1.
Proof.
  split; [repeat constructor; q_closed|].
  split; [repeat constructor; q_closed | q_closed].
Qed.

Lemma solve_result_maximal_witness :
  total_return example_clouds other_results
  <= total_return example_clouds example_results.
Proof.
  assert (Hne : example_clouds <> []) by discriminate.
  destruct other_results_ok as (Hnn & Hw & Hsum).
  exact (solve_result_maximal Reference.solve example_clouds example_results
           other_results Hne (reference_exact example_clouds)
           example_results_returned Hnn Hw Hsum).
Defined.

Lemma solve_fails_iff_infeasible_witness :
  (fst (calculate_optimal_asset_dist Reference.solve overfull_clouds)
     = Raised NonFeasibleSolutionError
   <-> ~ exists qs, admissible overfull_clouds qs) /\
  ((exists res,
      fst (calculate_optimal_asset_dist Reference.solve example_clouds) = Returned res)
   <-> Forall (fun c => floor c <= maximum c) example_clouds /\
       Qsum (map floor example_clouds) <= 1 /\ 1 <= sum_maximum example_clouds).
Proof.
  split.
  - apply (solve_fails_iff_infeasible Reference.solve overfull_clouds);
      [discriminate | exact (reference_exact overfull_clouds)].
  - apply (solve_fails_iff_infeasible Reference.solve example_clouds);
      [discriminate | exact (reference_exact example_clouds)].
Defined.

Lemma solve_value_independent_of_solver_witness :
  exists res1 res2,
    fst (calculate_optimal_asset_dist Reference.solve example_clouds) = Returned res1 /\
    fst (calculate_optimal_asset_dist Reference.solve example_clouds) = Returned res2 /\
    map name res1 = map name res2 /\
    total_return example_clouds res1 == total_return example_clouds res2.
Proof.
  assert (Hne : example_clouds <> []) by discriminate.
  destruct (solve_value_independent_of_solver Reference.solve Reference.solve
              example_clouds Hne (reference_exact example_clouds)
              (reference_exact example_clouds)) as [[H _] | H].
  - rewrite example_results_returned in H. discriminate H.
  - exact H.
Defined.

Lemma solve_single_cloud_witness :
  bounds_ok whole_cloud /\
  asset whole_cloud <> ""%string /\
  Pulp.exact_on Reference.solve (lp_model [whole_cloud]) /\
  exists res, fst (calculate_optimal_asset_dist Reference.solve [whole_cloud])
              = Returned res.
Proof.
  assert (Hok : bounds_ok whole_cloud) by (repeat split; q_closed).
  assert (Hlabel : asset whole_cloud <> ""%string) by discriminate.
  split; [exact Hok|]. split; [exact Hlabel|].
  split; [exact (reference_exact [whole_cloud])|].
  apply (proj1 (solve_single_cloud Reference.solve whole_cloud Hok Hlabel
                  (reference_exact [whole_cloud]))).
  reflexivity.
Defined.

Lemma optimise_portfolio_shows_witness :
  (exists call,
     fst (Render.optimise_portfolio Reference.solve Render.draws_all example_clouds)
     = Returned (Render.Pyplot call)) /\
  fst (Render.optimise_portfolio Reference.solve_named Render.draws_all twin_clouds)
  = Raised PulpSolverError.
Proof.
  split.
  - destruct (optimise_portfolio_shows Reference.solve Render.draws_all example_clouds)
      as (_ & _ & H).
    assert (Hne : example_clouds <> []) by discriminate.
    destruct (H Hne) as (_ & _ & Hpie).
    eexists.
    apply (Hpie Pulp.LpStatusOptimal _ _ eq_refl eq_refl eq_refl). reflexivity.
  - destruct (optimise_portfolio_shows Reference.solve_named Render.draws_all twin_clouds)
      as (_ & _ & H).
    assert (Hne : twin_clouds <> []) by discriminate.
    destruct (H Hne) as (Hraised & _).
    apply Hraised; [reflexivity | discriminate].
Defined.

Lemma optimise_portfolio_pie_witness :
  Forall bounds_ok example_clouds /\
  Forall (fun c => asset c <> ""%string) example_clouds /\
  sum_minimum example_clouds <= 1 /\
  1 <= sum_maximum example_clouds /\
  Pulp.exact_on Reference.solve (lp_model example_clouds) /\
  exists call,
    Render.optimise_portfolio Reference.solve Render.draws_all example_clouds
    = (Returned (Render.Pyplot call), example_clouds) /\
    Palette.pie_labels call = ["A"; "B"; "C"; "D"]%string /\
    Qsum (Palette.pie_proportions call) == 100.
Proof.
  assert (Hlabels : Forall (fun c => asset c <> ""%string) example_clouds)
    by (repeat constructor; discriminate).
  split; [exact example_clouds_ok|].
  split; [exact Hlabels|].
  split; [exact (proj1 example_sums)|].
  split; [exact (proj2 example_sums)|].
  split; [exact (reference_exact example_clouds)|].
  destruct (optimise_portfolio_pie Reference.solve example_clouds
              example_clouds_ok Hlabels (proj1 example_sums) (proj2 example_sums)
              (reference_exact example_clouds))
    as (call & Hnames & _ & _ & Hsum & _ & Hshow).
  exists call. split; [|split].
  - apply Hshow. reflexivity.
  - exact Hnames.
  - exact Hsum.
Defined.

Lemma solve_return_between_extremes_witness :
  (1 # 10) <= total_return example_clouds example_results /\
  total_return example_clouds example_results <= (3 # 10).
Proof.
  assert (Hne : example_clouds <> []) by discriminate.
  apply (solve_return_between_extremes Reference.solve example_clouds example_results
           (1 # 10) (3 # 10) Hne (reference_exact example_clouds)
           example_results_returned).
  intros c Hc. simpl in Hc.
  destruct Hc as [<- | [<- | [<- | [<- | []]]]]; simpl; split; q_closed.
Defined.

Lemma solve_serves_higher_return_first_witness :
  (1 # 2) == (50 # 100) \/ (1 # 5) == floor (mkInvestmentCloud "D" (1 # 10) (20 # 100) (60 # 100)).
Proof.
  exact (solve_serves_higher_return_first Reference.solve example_clouds example_results
           2 3
           (mkInvestmentCloud "C" (3 # 10) (5 # 100) (50 # 100))
           (mkInvestmentCloud "D" (1 # 10) (20 # 100) (60 # 100))
           (mkAssetDist "C" (1 # 2)) (mkAssetDist "D" (1 # 5))
           (reference_exact example_clouds) example_results_returned
           eq_refl eq_refl eq_refl eq_refl eq_refl).
Defined.
